(** * Token-heuristic CFG builder: labeler, edge generator, path enumerator

    Shallow embedding of [cfg_builder.py], [paths_finder.py] and the
    complexity arithmetic of [gui.py] (directory "Token Heuristic").

    Text is modelled as [string]: one [ascii] per code point, so the model
    covers source texts whose code points are below 256.  Python lists are
    lists, the dictionary of successors is a [gmap string (list string)],
    the [seen] set of the edge de-duplication is a [gset]. *)

From Stdlib Require Import Ascii String DecimalString DecimalNat ZArith.
From stdpp Require Import gmap strings list.


(** ** Python text primitives *)

Module Text.

(** [str.isspace] on one code point below 256. *)
Definition is_space (c : ascii) : bool :=
  let n := nat_of_ascii c in
  (((9 <=? n) && (n <=? 13)) || ((28 <=? n) && (n <=? 32))
   || (n =? 133) || (n =? 160))%nat.

(** Line boundaries of [str.splitlines] below 256:
    LF, VT, FF, CR, FS, GS, RS, NEL. *)
Definition is_linebreak (c : ascii) : bool :=
  let n := nat_of_ascii c in
  (((10 <=? n) && (n <=? 13)) || ((28 <=? n) && (n <=? 30)) || (n =? 133))%nat.

Definition is_digit (c : ascii) : bool :=
  let n := nat_of_ascii c in ((48 <=? n) && (n <=? 57))%nat.

(** [source.splitlines()]: a CR LF pair is one boundary, and a boundary at
    the very end of the text opens no further line. *)
Fixpoint splitlines (s : string) : list string :=
  match s with
  | EmptyString => []
  | String c s' =>
      if is_linebreak c then
        "" :: (if Ascii.eqb c "013"%char then
                 match s' with
                 | String c2 s'' =>
                     if Ascii.eqb c2 "010"%char then splitlines s''
                     else splitlines s'
                 | EmptyString => []
                 end
               else splitlines s')
      else
        match splitlines s' with
        | [] => [String c ""]
        | l :: ls => String c l :: ls
        end
  end.

(** [s.lstrip()] *)
Fixpoint lstrip (s : string) : string :=
  match s with
  | String c s' => if is_space c then lstrip s' else s
  | EmptyString => ""
  end.

(** [s.rstrip()] *)
Fixpoint rstrip (s : string) : string :=
  match s with
  | String c s' =>
      match rstrip s' with
      | EmptyString => if is_space c then "" else String c ""
      | r => String c r
      end
  | EmptyString => ""
  end.

(** [s.strip()] *)
Definition strip (s : string) : string := rstrip (lstrip s).

(** [s.lstrip(" ")] *)
Fixpoint lstrip_spaces (s : string) : string :=
  match s with
  | String c s' => if Ascii.eqb c " "%char then lstrip_spaces s' else s
  | EmptyString => ""
  end.

(** [line.replace("\t", " " * 4)] *)
Fixpoint expand_tabs (s : string) : string :=
  match s with
  | String c s' =>
      if Ascii.eqb c "009"%char then "    " +:+ expand_tabs s'
      else String c (expand_tabs s')
  | EmptyString => ""
  end.

(** [s[n:]] *)
Fixpoint drop_chars (n : nat) (s : string) : string :=
  match n, s with
  | S n', String _ s' => drop_chars n' s'
  | _, _ => s
  end.

(** [sub in s] *)
Fixpoint contains (sub s : string) : bool :=
  String.prefix sub s ||
  match s with
  | String _ s' => contains sub s'
  | EmptyString => false
  end.

(** [s.startswith(p)] *)
Definition startswith (s p : string) : bool := String.prefix p s.

(** [str(n)] for a non-negative integer. *)
Definition str_of_nat (n : nat) : string :=
  NilZero.string_of_uint (Nat.to_uint n).

(** The regular expression [\d+], matched against the whole string. *)
Fixpoint all_digits (s : string) : bool :=
  match s with
  | String c s' => is_digit c && all_digits s'
  | EmptyString => true
  end.

Definition digits1 (s : string) : bool :=
  match s with
  | EmptyString => false
  | _ => all_digits s
  end.

(** [re.fullmatch(p + r"\d+", token) is not None] for a literal [p]. *)
Definition fullmatch_lit_digits (p token : string) : bool :=
  String.prefix p token && digits1 (drop_chars (String.length p) token).

End Text.

Import Text.

(** ** cfg_builder.py: the labeler *)

Definition KEYWORDS : list string := ["if"; "elif"; "else"; "for"; "while"].

(** [indent_level]: leading spaces after tabs are replaced by four spaces. *)
Definition indent_level (line : string) : nat :=
  let line := expand_tabs line in
  String.length line - String.length (lstrip_spaces line).

(** [extract_keyword]: [Some (kw, rest)] for the first keyword of
    [KEYWORDS] the stripped line starts with, [None] for [(None, None)]. *)
Definition extract_keyword (line : string) : option (string * string) :=
  let s := strip line in
  match List.find (fun kw => startswith s kw) KEYWORDS with
  | Some kw => Some (kw, strip (drop_chars (String.length kw) s))
  | None => None
  end.

(** Loop state of [build_listM].  [stack] keeps its top at the head of the
    list ([stack[-1]] is the head, [append] conses, [pop] takes the tail). *)
Record labeler_state : Type := LabelerState {
  count : nat;
  stack : list (nat * string);
  listM : list string
}.

Definition labeler_init : labeler_state :=
  {| count := 0; stack := []; listM := [] |}.

(** [while stack and lvl <= stack[-1][0]: stack.pop()] *)
Fixpoint pop_blocks (lvl : nat) (stk : list (nat * string)) : list (nat * string) :=
  match stk with
  | (l, lab) :: rest => if (lvl <=? l)%nat then pop_blocks lvl rest else stk
  | [] => []
  end.

(** [not line.strip()] *)
Definition is_blank (line : string) : bool :=
  String.eqb (strip line) "".

Definition nonempty {A} (l : list A) : bool :=
  match l with [] => false | _ => true end.

(** One iteration of [for line in lines]. *)
Definition labeler_step (s : labeler_state) (line : string) : labeler_state :=
  if is_blank line then s
  else
    let kw := extract_keyword line in
    let lvl := indent_level line in
    let stk := pop_blocks lvl (stack s) in
    let nested := nonempty stk in
    match kw with
    | None => {| count := count s; stack := stk; listM := listM s |}
    | Some (kw, _) =>
        let cnt := S (count s) in
        if String.eqb kw "if" || String.eqb kw "elif" then
          let label :=
            if negb nested then kw +:+ str_of_nat cnt
            else kw +:+ "sp" +:+ str_of_nat cnt in
          let explabel :=
            if negb nested then kw +:+ "exp" +:+ str_of_nat cnt
            else kw +:+ "spexp" +:+ str_of_nat cnt in
          {| count := cnt; stack := (lvl, label) :: stk;
             listM := listM s ++ [label; explabel] |}
        else if String.eqb kw "else" then
          let label :=
            if negb nested then "else" +:+ str_of_nat cnt
            else "elsesp" +:+ str_of_nat cnt in
          {| count := cnt; stack := (lvl, label) :: stk;
             listM := listM s ++ [label] |}
        else if String.eqb kw "for" || String.eqb kw "while" then
          let label :=
            if negb nested then kw +:+ str_of_nat cnt
            else kw +:+ "sp" +:+ str_of_nat cnt in
          {| count := cnt; stack := (lvl, label) :: stk;
             listM := listM s ++ [label] |}
        else {| count := cnt; stack := stk; listM := listM s |}
    end.

(** The loop over the lines, from any state. *)
Definition labeler_run (s : labeler_state) (lines : list string) : labeler_state :=
  foldl labeler_step s lines.

(** The labeler on already split lines. *)
Definition build_listM_lines (lines : list string) : list string :=
  "start" :: listM (labeler_run labeler_init lines) ++ ["end"].

Definition build_listM (source : string) : list string :=
  build_listM_lines (splitlines source).

(** A line the loop acts on as a keyword occurrence. *)
Definition keyword_line (line : string) : bool :=
  negb (is_blank line) && bool_decide (is_Some (extract_keyword line)).

(** The sample program of [main.py]. *)
Definition dq : string := String (ascii_of_nat 34) "".
Definition nl : string := String (ascii_of_nat 10) "".

Definition sample_program : string :=
  "var=int(input())" +:+ nl +:+
  "if(var == 200):" +:+ nl +:+
  "    print (" +:+ dq +:+ "1 - Got a true expression value" +:+ dq +:+ ")" +:+ nl +:+
  "    print (var)" +:+ nl +:+
  "elif var == 150:" +:+ nl +:+
  "    print (" +:+ dq +:+ "2 - Got a true expression value" +:+ dq +:+ ")" +:+ nl +:+
  "    print (var)" +:+ nl +:+
  "elif var == 100:" +:+ nl +:+
  "    print (" +:+ dq +:+ "3 - Got a true expression value" +:+ dq +:+ ")" +:+ nl +:+
  "    print (var)" +:+ nl +:+
  "else:" +:+ nl +:+
  "    print (" +:+ dq +:+ "4 - Got a false expression value" +:+ dq +:+ ")" +:+ nl +:+
  "    print (var)" +:+ nl.

(** ** cfg_builder.py: the edge generator *)

(** [create_nodes]: [list(dict.fromkeys(listM))], the keys in the order of
    their first insertion. *)
Definition create_nodes (listM : list string) : list string :=
  foldl (fun keys x => if bool_decide (x ∈ keys) then keys else keys ++ [x])
        [] listM.

Definition _is_plain_if (token : string) : bool :=
  fullmatch_lit_digits "if" token.

Definition _is_plain_elif (token : string) : bool :=
  fullmatch_lit_digits "elif" token.

Definition _is_plain_else (token : string) : bool :=
  fullmatch_lit_digits "else" token.

Definition _is_plain_exp (token : string) : bool :=
  fullmatch_lit_digits "ifexp" token || fullmatch_lit_digits "elifexp" token.

Definition _is_branch_kw (token : string) : bool :=
  _is_plain_elif token || _is_plain_else token || String.eqb token "end".

(** Truth value of a string in a condition ([if nxt]). *)
Definition truthy (s : string) : bool := negb (String.eqb s "").

(** State of the main loop of [generate_cfg].  [stfor] and [enfor] are
    written and never read, as in the source; the locals [f], [f1] and
    [nxt2] are never read and are left out. *)
Record cfg_state : Type := CfgState {
  edges : list (string * string);
  list3 : list string;
  st : option nat;
  en : option nat;
  stfor : option nat;
  enfor : option nat
}.

Definition cfg_init (listM : list string) : cfg_state :=
  {| edges := match listM with
              | a :: b :: _ => [(a, b)]
              | _ => []
              end;
     list3 := []; st := None; en := None; stfor := None; enfor := None |}.

(** [st is not None and en is not None and (st <= i <= en)] *)
Definition in_while_range (s : cfg_state) (i : nat) : bool :=
  match st s, en s with
  | Some a, Some b => ((a <=? i) && (i <=? b))%nat
  | _, _ => false
  end.

(** First position [k >= k0] whose element satisfies [P], scanning [l]
    as the part of the list that starts at position [k0]. *)
Fixpoint find_from (P : string -> bool) (l : list string) (k0 : nat)
  : option (nat * string) :=
  match l with
  | [] => None
  | x :: r => if P x then Some (k0, x) else find_from P r (S k0)
  end.

Definition no_sp (x : string) : bool := negb (contains "sp" x).

Definition set_edges (s : cfg_state) (e : list (string * string)) : cfg_state :=
  {| edges := e; list3 := list3 s; st := st s; en := en s;
     stfor := stfor s; enfor := enfor s |}.

(** One iteration of [while i < len(listM) - 1]; every branch of the body
    ends with [i += 1], so the loop visits i = 1, ..., len(listM) - 2 once
    each.  Inside the loop [i + 1 < len(listM)], so [nxt] is a string. *)
Definition cfg_step (listM : list string) (s : cfg_state) (i : nat) : cfg_state :=
  match listM !! i, listM !! (i + 1) with
  | Some cur, Some nxt =>
      if _is_plain_exp cur then s
      else if (_is_plain_if cur || _is_plain_elif cur)
              && truthy nxt && _is_plain_exp nxt then
        let e1 := edges s ++ [(cur, nxt)] in
        let l1 := list3 s ++ [cur; nxt] in
        match List.find _is_branch_kw (drop (i + 2) listM) with
        | Some next_branch =>
            {| edges := e1 ++ [(cur, next_branch)] ++ [(nxt, "end")];
               list3 := l1 ++ [next_branch];
               st := st s; en := en s; stfor := stfor s; enfor := enfor s |}
        | None =>
            {| edges := e1 ++ [(nxt, "end")];
               list3 := l1;
               st := st s; en := en s; stfor := stfor s; enfor := enfor s |}
        end
      else if _is_plain_else cur then
        {| edges := edges s ++ [(cur, "end")];
           list3 := list3 s ++ [cur];
           st := st s; en := en s; stfor := stfor s; enfor := enfor s |}
      else if startswith cur "forsp" then
        let e1 := edges s ++ [(cur, cur)] in
        match listM !! (i - 1) with
        | Some prev =>
            if contains "for" prev then set_edges s (e1 ++ [(cur, prev)])
            else if truthy nxt && contains "sp" nxt then
              set_edges s (e1 ++ [(cur, nxt)])
            else if in_while_range s i then set_edges s (e1 ++ [(cur, "f")])
            else if truthy nxt then set_edges s (e1 ++ [(cur, nxt)])
            else set_edges s e1
        | None => set_edges s e1
        end
      else if startswith cur "for" && no_sp cur then
        let e1 := if truthy nxt && no_sp nxt
                  then edges s ++ [(cur, cur)] else edges s in
        match find_from no_sp (drop (i + 1) listM) (i + 1) with
        | Some (j, lj) =>
            let e2 := e1 ++ [(cur, lj)] in
            let e3 := if truthy nxt && negb (String.eqb nxt lj)
                      then e2 ++ [(cur, nxt)] else e2 in
            {| edges := e3; list3 := list3 s; st := st s; en := en s;
               stfor := Some i; enfor := Some j |}
        | None =>
            {| edges := e1; list3 := list3 s; st := st s; en := en s;
               stfor := Some i; enfor := enfor s |}
        end
      else if startswith cur "while" && no_sp cur then
        let e1 := if truthy nxt && no_sp nxt
                  then edges s ++ [(cur, cur)] else edges s in
        match find_from no_sp (drop (i + 1) listM) (i + 1) with
        | Some (j, lj) =>
            let e2 := e1 ++ [(cur, lj)] in
            let e3 := if truthy nxt && negb (String.eqb nxt lj)
                      then e2 ++ [(cur, nxt)] else e2 in
            {| edges := e3; list3 := list3 s; st := Some i; en := Some j;
               stfor := stfor s; enfor := enfor s |}
        | None =>
            {| edges := e1; list3 := list3 s; st := Some i; en := en s;
               stfor := stfor s; enfor := enfor s |}
        end
      else if startswith cur "whilesp" then
        let e1 := if in_while_range s i then edges s ++ [(cur, "f")]
                  else if truthy nxt then edges s ++ [(cur, nxt)]
                  else edges s in
        set_edges s (e1 ++ [(cur, cur)])
      else if truthy nxt then set_edges s (edges s ++ [(cur, nxt)])
      else s
  | _, _ => s
  end.

(** The main loop: i = 1, ..., len(listM) - 2. *)
Definition cfg_loop (listM : list string) : cfg_state :=
  foldl (cfg_step listM) (cfg_init listM) (seq 1 (length listM - 2)).

(** The de-duplication loop: [seen] is the set, [uniq_edges] the list.  No
    component of an edge is ever [None], so that test never rejects. *)
Definition dedup_step (acc : gset (string * string) * list (string * string))
    (e : string * string) : gset (string * string) * list (string * string) :=
  if bool_decide (e ∉ acc.1) then ({[ e ]} ∪ acc.1, acc.2 ++ [e]) else acc.

Definition dedup_edges (es : list (string * string)) : list (string * string) :=
  (foldl dedup_step (∅, []) es).2.

(** [freq[n] += 1] over [list3], from a [defaultdict(int)]. *)
Definition freq_of (l3 : list string) : gmap string nat :=
  foldl (fun m n => <[ n := S (default 0 (m !! n)) ]> m) ∅ l3.

Definition generate_cfg (listM : list string)
  : list string * list (string * string) * list string * gmap string nat :=
  let nodes := create_nodes listM in
  let s := cfg_loop listM in
  (nodes, dedup_edges (edges s), list3 s, freq_of (list3 s)).

Definition cfg_nodes (listM : list string) : list string :=
  (generate_cfg listM).1.1.1.

Definition cfg_edges (listM : list string) : list (string * string) :=
  (generate_cfg listM).1.1.2.

(** [build_adj_from_edges]: [d[a].append(b)] on a [defaultdict(list)]. *)
Definition build_adj_from_edges (es : list (string * string))
  : gmap string (list string) :=
  foldl (fun d e => <[ e.1 := default [] (d !! e.1) ++ [e.2] ]> d) ∅ es.

(** ** gui.py: cyclomatic complexity, V = E - N + 2 floored at 1 *)

Definition complexity (nodes : list string) (es : list (string * string)) : Z :=
  let E := Z.of_nat (length es) in
  let N := Z.of_nat (length nodes) in
  let V := (E - N + 2)%Z in
  if (V <? 1)%Z then 1%Z else V.

(** ** paths_finder.py: the path enumerator *)

(** [d.get(k, [])] *)
Definition successors (d : gmap string (list string)) (k : string) : list string :=
  default [] (d !! k).

(** The inner loop of the back-edge branch, over [d.get(node, [])]:
    [break] on a self-loop, append [path + [node, "end"]] and [break] on
    the literal ["end"]. *)
Fixpoint back_edge_scan (node : string) (path : list string)
    (succs : list string) : list (list string) :=
  match succs with
  | [] => []
  | i :: rest =>
      if String.eqb i node then []
      else if String.eqb i "end" then [path ++ [node; "end"]]
      else back_edge_scan node path rest
  end.

(** The loop [for node in d.get(source, [])], with the recursive call as a
    parameter; [None] when a recursive call is out of fuel. *)
Fixpoint visit_successors (d : gmap string (list string))
    (rec : string -> option (list (list string)))
    (path : list string) (nodes : list string) : option (list (list string)) :=
  match nodes with
  | [] => Some []
  | node :: rest =>
      if bool_decide (node ∈ path) then
        app (back_edge_scan node path (successors d node))
          <$> visit_successors d rec path rest
      else
        match rec node with
        | Some newpaths => app newpaths <$> visit_successors d rec path rest
        | None => None
        end
  end.

(** [find_all_paths] with a bound on the recursion depth; [path0] is the
    argument [path], with [None] read as the empty list. *)
Fixpoint find_all_paths_fuel (fuel : nat) (d : gmap string (list string))
    (source dest : string) (path0 : list string) : option (list (list string)) :=
  match fuel with
  | O => None
  | S fuel' =>
      let path := path0 ++ [source] in
      if String.eqb source dest then Some [path]
      else
        visit_successors d
          (fun node => find_all_paths_fuel fuel' d node dest path)
          path (successors d source)
  end.

(** Every label that occurs as a successor in [d]. *)
Definition all_successors (d : gmap string (list string)) : list string :=
  concat (map snd (map_to_list d)).

(** Labels of [univ] not yet on [path]: the recursion measure. *)
Definition unvisited (univ path : list string) : nat :=
  length (filter (fun x => x ∉ path) univ).

(** [find_all_paths]: the recursion only enters labels that are not on the
    path, so a depth of one more than the number of successor labels is
    never reached (see [find_all_paths_fuel_enough]). *)
Definition find_all_paths (d : gmap string (list string))
    (source dest : string) (path0 : list string) : list (list string) :=
  default [] (find_all_paths_fuel (S (length (all_successors d))) d source dest path0).

(** The whole pipeline of [main.py]. *)
Definition pipeline_paths (source : string) : list (list string) :=
  find_all_paths (build_adj_from_edges (cfg_edges (build_listM source)))
                 "start" "end" [].

(** ** Reading a label back *)

(** The text of a label from its first digit on. *)
Fixpoint drop_nondigits (s : string) : string :=
  match s with
  | String c s' => if is_digit c then s else drop_nondigits s'
  | EmptyString => ""
  end.

(** The counter value a label was built from. *)
Definition label_number (s : string) : option nat :=
  Nat.of_uint <$> NilZero.uint_of_string (drop_nondigits s).

(** Paired expression labels are the ones that carry [exp]. *)
Definition is_exp_label (s : string) : bool := contains "exp" s.

(** The labels of an output of the labeler other than [start], [end] and
    the paired expression labels. *)
Definition header_labels (out : list string) : list string :=
  List.filter (fun x => negb (is_exp_label x) && negb (String.eqb x "start")
                        && negb (String.eqb x "end")) out.

(** A label built by the loop: it carries a counter value. *)
Definition numbered (lo hi : nat) (x : string) : Prop :=
  exists c, label_number x = Some c /\ lo < c <= hi.

(** ** Sample inputs *)

Definition while_program : string :=
  "while x > 0:" +:+ nl +:+ "    x = x - 1" +:+ nl.

Definition nested_while_program : string :=
  "while a:" +:+ nl +:+ "    while b:" +:+ nl +:+ "        c = 1".

Definition plain_program : string :=
  "x = 1" +:+ nl +:+ "print(x)" +:+ nl.

(** A loop between [a] and [b] with an exit to ["end"]. *)
Definition adj_loop_end : gmap string (list string) :=
  {[ "start" := ["a"]; "a" := ["b"; "end"]; "b" := ["a"] ]}.

(** The same loop with an exit to [z]. *)
Definition adj_loop_z : gmap string (list string) :=
  {[ "a" := ["b"; "z"]; "b" := ["a"] ]}.

Definition dedent_pre : list string := ["if x:"; "    y = 1"].
Definition dedent_post : list string := ["    while w:"].

(** The tokens of rules (d) and (g): nested loop tokens. *)
Definition nested_loop (x : string) : bool :=
  startswith x "forsp" || startswith x "whilesp".

(** The edges one iteration of the main loop can append at index [i], where
    [cur = listM[i]] and [nxt = listM[i + 1]]. *)
Inductive step_edge (listM : list string) (i : nat) (cur nxt : string)
  : string * string -> Prop :=
  | edge_self : step_edge listM i cur nxt (cur, cur)
  | edge_next : step_edge listM i cur nxt (cur, nxt)
  | edge_end : step_edge listM i cur nxt (cur, "end")
  | edge_later j b :
      i < j -> listM !! j = Some b -> step_edge listM i cur nxt (cur, b)
  | edge_prev b :
      listM !! (i - 1) = Some b -> contains "for" b = true ->
      step_edge listM i cur nxt (cur, b)
  | edge_marker :
      nested_loop cur = true -> step_edge listM i cur nxt (cur, "f")
  | edge_exp_end :
      _is_plain_exp nxt = true -> step_edge listM i cur nxt (nxt, "end").

(** Every edge of the main loop is the start edge or a step edge. *)
Definition loop_edge (listM : list string) (e : string * string) : Prop :=
  (exists a b rest, listM = a :: b :: rest /\ e = (a, b))
  \/ (exists i cur nxt,
        1 <= i /\ listM !! i = Some cur /\ listM !! (i + 1) = Some nxt
        /\ step_edge listM i cur nxt e).

Fixpoint no_digit_chars (s : string) : bool :=
  match s with
  | String c s' => negb (is_digit c) && no_digit_chars s'
  | EmptyString => true
  end.

(** ** Notions used to state further properties *)

(** A keyword line whose keyword is [if] or [elif]: it emits two labels. *)
Definition branch_line (line : string) : bool :=
  negb (is_blank line) &&
  match extract_keyword line with
  | Some (kw, _) => String.eqb kw "if" || String.eqb kw "elif"
  | None => false
  end.

(** The depths of the nesting stack grow strictly towards the top. *)
Fixpoint depths_decreasing (stk : list (nat * string)) : bool :=
  match stk with
  | (l1, _) :: rest =>
      match rest with
      | (l2, _) :: _ => (l2 <? l1) && depths_decreasing rest
      | [] => true
      end
  | [] => true
  end.

(** Every step of [p] follows an edge of the adjacency mapping. *)
Fixpoint is_walk (d : gmap string (list string)) (p : list string) : Prop :=
  match p with
  | x :: rest =>
      match rest with
      | y :: _ => y ∈ successors d x /\ is_walk d rest
      | [] => True
      end
  | [] => True
  end.

(** * Facts about the text primitives *)

Section TextFacts.

Lemma append_nil_l (b : string) : "" +:+ b = b.
Proof. reflexivity. Qed.

Lemma append_cons_l (x : ascii) (a b : string) :
  String x a +:+ b = String x (a +:+ b).
Proof. reflexivity. Qed.

Lemma append_assoc_str (a b c : string) : (a +:+ b) +:+ c = a +:+ (b +:+ c).
Proof.
  induction a as [|x a IH]; [done|].
  rewrite !append_cons_l. by f_equal.
Qed.

Lemma all_digits_string_of_uint u : all_digits (NilEmpty.string_of_uint u) = true.
Proof. induction u; simpl; auto. Qed.

Lemma str_of_nat_digits n : all_digits (str_of_nat n) = true.
Proof.
  unfold str_of_nat, NilZero.string_of_uint.
  destruct (Nat.to_uint n) eqn:E; try done;
    rewrite <- E at 1; try (rewrite E; apply all_digits_string_of_uint).
Qed.

Lemma str_of_nat_nonempty n : str_of_nat n <> "".
Proof.
  unfold str_of_nat, NilZero.string_of_uint.
  destruct (Nat.to_uint n); simpl; discriminate.
Qed.

Lemma drop_nondigits_digits d : all_digits d = true -> drop_nondigits d = d.
Proof.
  destruct d as [|c d]; simpl; [done|].
  intros [-> _]%andb_prop. done.
Qed.

Lemma drop_nondigits_app p d :
  no_digit_chars p = true -> drop_nondigits (p +:+ d) = drop_nondigits d.
Proof.
  induction p as [|c p IH]; [done|].
  rewrite append_cons_l. simpl.
  intros [Hc Hp]%andb_prop. apply negb_true_iff in Hc. rewrite Hc. auto.
Qed.

Lemma label_number_str n : label_number (str_of_nat n) = Some n.
Proof.
  unfold label_number.
  rewrite drop_nondigits_digits by apply str_of_nat_digits.
  unfold str_of_nat.
  destruct (Nat.to_uint n) eqn:E;
    [ simpl; f_equal; rewrite <- (DecimalNat.Unsigned.of_to n), E; done
    | rewrite NilZero.usu by discriminate; simpl;
      rewrite <- E, DecimalNat.Unsigned.of_to; done .. ].
Qed.

Lemma label_number_app p n :
  no_digit_chars p = true -> label_number (p +:+ str_of_nat n) = Some n.
Proof.
  intros Hp. unfold label_number. rewrite drop_nondigits_app by done.
  apply label_number_str.
Qed.

Lemma prefix_app_digits sub q d :
  no_digit_chars sub = true -> all_digits d = true ->
  String.prefix sub (q +:+ d) = String.prefix sub q.
Proof.
  revert sub. induction q as [|b q IH]; intros sub Hs Hd.
  - rewrite append_nil_l.
    destruct sub as [|a sub]; simpl; [by destruct d|].
    destruct d as [|c d]; [done|]. simpl in *.
    apply andb_prop in Hs as [Ha _]. apply andb_prop in Hd as [Hc _].
    destruct (ascii_dec a c) as [->|]; [|done].
    rewrite Hc in Ha. done.
  - rewrite append_cons_l.
    destruct sub as [|a sub]; simpl; [done|].
    simpl in Hs. apply andb_prop in Hs as [_ Hs].
    destruct (ascii_dec a b); auto.
Qed.

Lemma contains_digits sub d :
  no_digit_chars sub = true -> sub <> "" -> all_digits d = true ->
  contains sub d = false.
Proof.
  intros Hs Hne. induction d as [|c d IH]; intros Hd.
  - simpl. destruct sub; [done|]. done.
  - simpl in Hd. apply andb_prop in Hd as [Hc Hd].
    cbn [contains]. rewrite IH by done.
    destruct sub as [|a sub]; [done|]. simpl.
    simpl in Hs. apply andb_prop in Hs as [Ha _].
    destruct (ascii_dec a c) as [->|]; [|done].
    rewrite Hc in Ha. done.
Qed.

Lemma contains_app_digits sub p d :
  no_digit_chars sub = true -> sub <> "" -> all_digits d = true ->
  contains sub (p +:+ d) = contains sub p.
Proof.
  intros Hs Hne Hd. induction p as [|c p IH].
  - rewrite append_nil_l, contains_digits by done. destruct sub; done.
  - rewrite append_cons_l. cbn [contains]. rewrite IH.
    rewrite <- append_cons_l. by rewrite prefix_app_digits.
Qed.

Lemma is_exp_label_app p n :
  is_exp_label (p +:+ str_of_nat n) = is_exp_label p.
Proof.
  unfold is_exp_label. apply contains_app_digits; [done..|].
  apply str_of_nat_digits.
Qed.

End TextFacts.

(** * Facts about the labeler *)

Section LabelerFacts.

Lemma extract_keyword_in line kw r :
  extract_keyword line = Some (kw, r) -> In kw KEYWORDS.
Proof.
  unfold extract_keyword.
  destruct (List.find _ KEYWORDS) as [k|] eqn:E; [|done].
  intros [= <- _]. by apply find_some in E as [? _].
Qed.

Lemma keyword_line_false line :
  keyword_line line = false ->
  is_blank line = true \/ (is_blank line = false /\ extract_keyword line = None).
Proof.
  unfold keyword_line. destruct (is_blank line); [by left|]. simpl.
  intros H%bool_decide_eq_false. right. split; [done|].
  destruct (extract_keyword line); [|done]. destruct H. by eexists.
Qed.

Lemma keyword_line_true line :
  keyword_line line = true ->
  is_blank line = false /\ exists kw r, extract_keyword line = Some (kw, r).
Proof.
  unfold keyword_line. destruct (is_blank line); [done|]. simpl.
  intros [[kw r] H]%bool_decide_eq_true. eauto.
Qed.

Lemma pop_blocks_twice lvl lvl' stk :
  lvl' <= lvl -> pop_blocks lvl' (pop_blocks lvl stk) = pop_blocks lvl' stk.
Proof.
  intros Hle. induction stk as [|[l lab] stk IH]; [done|].
  simpl. destruct (lvl <=? l) eqn:E.
  - apply Nat.leb_le in E.
    assert ((lvl' <=? l) = true) as -> by (apply Nat.leb_le; lia). done.
  - done.
Qed.

Lemma labeler_step_blank s line : is_blank line = true -> labeler_step s line = s.
Proof. unfold labeler_step. by intros ->. Qed.

Lemma labeler_step_other s line :
  is_blank line = false -> extract_keyword line = None ->
  labeler_step s line =
    {| count := count s;
       stack := pop_blocks (indent_level line) (stack s);
       listM := listM s |}.
Proof. unfold labeler_step. by intros -> ->. Qed.

(** What a keyword line does: the counter goes up by one, a header label
    carrying the new counter value is emitted and pushed, followed by at most
    one paired expression label with the same value. *)
Lemma labeler_step_keyword s line :
  keyword_line line = true ->
  exists lab exps,
    count (labeler_step s line) = S (count s)
    /\ stack (labeler_step s line) =
         (indent_level line, lab) :: pop_blocks (indent_level line) (stack s)
    /\ listM (labeler_step s line) = listM s ++ lab :: exps
    /\ label_number lab = Some (S (count s))
    /\ is_exp_label lab = false
    /\ Forall (fun e => label_number e = Some (S (count s))
                        /\ is_exp_label e = true) exps
    /\ length exps <= 1.
Proof.
  intros [Hb (kw & r & Hk)]%keyword_line_true.
  pose proof (extract_keyword_in _ _ _ Hk) as Hin.
  unfold labeler_step. rewrite Hb, Hk.
  set (stk := pop_blocks _ _). set (n := S (count s)).
  simpl in Hin.
  destruct Hin as [<-|[<-|[<-|[<-|[<-|[]]]]]]; simpl;
    destruct (nonempty stk); simpl;
    eexists _, _; (split; [reflexivity|]); (split; [reflexivity|]);
    (split; [reflexivity|]);
    rewrite <- ?append_assoc_str, ?is_exp_label_app, ?label_number_app by done;
    repeat split; repeat constructor;
    rewrite <- ?append_assoc_str, ?is_exp_label_app, ?label_number_app by done;
    try done; simpl; lia.
Qed.

(** Lines that are not keyword lines leave the counter and the labels. *)
Lemma labeler_step_non_keyword s line :
  keyword_line line = false ->
  count (labeler_step s line) = count s
  /\ listM (labeler_step s line) = listM s
  /\ (stack s = [] -> stack (labeler_step s line) = []).
Proof.
  intros [Hb|[Hb Hk]]%keyword_line_false.
  - by rewrite labeler_step_blank.
  - rewrite labeler_step_other by done. simpl. repeat split.
    by intros ->.
Qed.

Lemma labeler_run_non_keyword s lines :
  Forall (fun l => keyword_line l = false) lines ->
  count (labeler_run s lines) = count s
  /\ listM (labeler_run s lines) = listM s
  /\ (stack s = [] -> stack (labeler_run s lines) = []).
Proof.
  intros H. revert s. induction H as [|l lines Hl _ IH]; intros s; [done|].
  unfold labeler_run in *. simpl.
  destruct (labeler_step_non_keyword s l Hl) as (Hc & Hm & Hs).
  destruct (IH (labeler_step s l)) as (Hc' & Hm' & Hs').
  rewrite Hc', Hm', Hc, Hm. repeat split. auto.
Qed.

Lemma labeler_run_app s l1 l2 :
  labeler_run s (l1 ++ l2) = labeler_run (labeler_run s l1) l2.
Proof. apply foldl_app. Qed.

End LabelerFacts.

(** * The labeler numbers its labels 1, 2, 3, ... *)

Section Numbering.

Lemma numbered_weaken lo hi lo' hi' x :
  lo' <= lo -> hi <= hi' -> numbered lo hi x -> numbered lo' hi' x.
Proof. intros ?? (c & ? & ?). exists c. split; [done|lia]. Qed.

Lemma numbered_header x lo hi :
  numbered lo hi x ->
  negb (is_exp_label x) && negb (String.eqb x "start") && negb (String.eqb x "end")
  = negb (is_exp_label x).
Proof.
  intros (c & Hc & _).
  destruct (String.eqb_spec x "start") as [->|]; [done|].
  destruct (String.eqb_spec x "end") as [->|]; [done|].
  by rewrite !andb_true_r.
Qed.

(** The loop from any state: what it appends to [listM]. *)
Lemma labeler_run_numbers lines : forall s,
  let n := length (List.filter keyword_line lines) in
  exists new,
    listM (labeler_run s lines) = listM s ++ new
    /\ count (labeler_run s lines) = count s + n
    /\ map label_number (List.filter (fun x => negb (is_exp_label x)) new)
       = map Some (seq (S (count s)) n)
    /\ Forall (numbered (count s) (count s + n)) new
    /\ NoDup new.
Proof.
  induction lines as [|l lines IH]; intros s; simpl.
  - exists []. rewrite app_nil_r, Nat.add_0_r. repeat split; constructor.
  - unfold labeler_run in *. simpl foldl.
    destruct (keyword_line l) eqn:Hl.
    + destruct (labeler_step_keyword s l Hl)
        as (lab & exps & Hc & _ & Hm & Hn & He & Hexps & Hlen).
      destruct (IH (labeler_step s l)) as (new & Hm' & Hc' & Hnum & Hall & Hnd).
      rewrite Hc in *. rewrite Hm in Hm'.
      exists (lab :: exps ++ new). simpl length.
      split; [by rewrite Hm', <- app_assoc|].
      split; [lia|].
      assert (Hfe : List.filter (fun x => negb (is_exp_label x)) exps = []).
      { clear -Hexps. induction Hexps as [|e exps [_ He] _ IHe]; [done|].
        simpl. by rewrite He. }
      split; [|split].
      * simpl. rewrite He. simpl. rewrite List.filter_app, Hfe. simpl.
        by rewrite Hn, Hnum.
      * constructor; [exists (S (count s)); split; [done|lia]|].
        apply Forall_app. split.
        -- eapply Forall_impl; [exact Hexps|]. intros e [? _].
           exists (S (count s)). split; [done|lia].
        -- eapply Forall_impl; [exact Hall|]. intros e.
           apply numbered_weaken; lia.
      * assert (Hnew : forall x, x ∈ new -> label_number x <> Some (S (count s))).
        { intros x Hx. rewrite Forall_forall in Hall.
          destruct (Hall x Hx) as (c & -> & ?). intros [= ->]. lia. }
        constructor.
        -- rewrite elem_of_app. intros [Hin|Hin].
           ++ rewrite Forall_forall in Hexps.
              destruct (Hexps _ Hin) as [_ ?]. congruence.
           ++ by apply Hnew in Hin.
        -- apply NoDup_app. split; [|split; [|done]].
           ++ destruct exps as [|e [|e' exps]]; simpl in Hlen;
                [constructor | | lia].
              apply NoDup_singleton.
           ++ intros x Hx Hx'. rewrite Forall_forall in Hexps.
              destruct (Hexps _ Hx) as [? _]. by apply Hnew in Hx'.
    + destruct (labeler_step_non_keyword s l Hl) as (Hc & Hm & _).
      destruct (IH (labeler_step s l)) as (new & Hm' & Hc' & Hnum & Hall & Hnd).
      rewrite Hc, Hm in *. exists new. done.
Qed.

End Numbering.

(** * Claims about the labeler *)

Section LabelerClaims.

Lemma create_nodes_NoDup_aux (l : list string) : forall acc,
  NoDup (acc ++ l) ->
  foldl (fun keys x => if bool_decide (x ∈ keys) then keys else keys ++ [x])
        acc l = acc ++ l.
Proof.
  induction l as [|x l IH]; intros acc Hnd; simpl.
  - by rewrite app_nil_r.
  - rewrite bool_decide_eq_false_2.
    + rewrite IH; rewrite <- app_assoc; done.
    + apply NoDup_app in Hnd as (_ & Hd & _). intros Hx.
      apply (Hd _ Hx). left.
Qed.

Lemma create_nodes_NoDup (l : list string) : NoDup l -> create_nodes l = l.
Proof. intros H. unfold create_nodes. by rewrite create_nodes_NoDup_aux. Qed.

Lemma build_listM_lines_NoDup lines : NoDup (build_listM_lines lines).
Proof.
  unfold build_listM_lines.
  destruct (labeler_run_numbers lines labeler_init)
    as (new & Hm & _ & _ & Hall & Hnd).
  simpl in Hm. rewrite Hm. rewrite Forall_forall in Hall.
  assert (Hnot : forall x, x ∈ new -> label_number x <> None).
  { intros x Hx. destruct (Hall x Hx) as (c & -> & _). done. }
  constructor.
  - rewrite elem_of_app, list_elem_of_singleton.
    intros [Hin|[=]]. by apply Hnot in Hin.
  - apply NoDup_app. split; [done|]. split; [|apply NoDup_singleton].
    intros x Hx ->%list_elem_of_singleton. by apply Hnot in Hx.
Qed.

(** C9: the label sequence of every source text has no duplicate label, so
    the order-preserving de-duplication is the identity on it and the node
    list of the edge generator is the label sequence itself. *)
Theorem labels_distinct_nodes_are_labels (source : string) :
  NoDup (build_listM source)
  /\ create_nodes (build_listM source) = build_listM source
  /\ cfg_nodes (build_listM source) = build_listM source.
Proof.
  pose proof (build_listM_lines_NoDup (splitlines source)) as Hnd.
  split; [exact Hnd|]. split; by apply create_nodes_NoDup.
Qed.

(** C6: the counter goes up by exactly one on every keyword line, whatever
    the keyword, and by nothing on any other line; it ends at the number of
    keyword lines; the labels other than [start], [end] and the paired
    expression labels carry the numbers 1, 2, ..., n in this order, one per
    keyword line, and every emitted label carries one of these numbers. *)
Theorem counter_numbers_keyword_lines (lines : list string) :
  let n := length (List.filter keyword_line lines) in
  (forall s line,
      count (labeler_step s line)
      = count s + (if keyword_line line then 1 else 0))
  /\ count (labeler_run labeler_init lines) = n
  /\ map label_number (header_labels (build_listM_lines lines))
     = map Some (seq 1 n)
  /\ length (header_labels (build_listM_lines lines)) = n
  /\ Forall (numbered 0 n) (listM (labeler_run labeler_init lines)).
Proof.
  intros n. split.
  { intros s line. destruct (keyword_line line) eqn:Hl.
    - destruct (labeler_step_keyword s line Hl) as (? & ? & -> & _). lia.
    - destruct (labeler_step_non_keyword s line Hl) as (-> & _). lia. }
  destruct (labeler_run_numbers lines labeler_init)
    as (new & Hm & Hc & Hnum & Hall & _).
  simpl in Hm, Hc, Hnum, Hall. fold n in Hc, Hnum, Hall.
  assert (Hh : header_labels (build_listM_lines lines)
               = List.filter (fun x => negb (is_exp_label x)) new).
  { unfold build_listM_lines, header_labels. rewrite Hm.
    cbn [List.filter]. change (negb (is_exp_label "start") && _ && _) with false.
    cbv iota. rewrite List.filter_app. simpl. rewrite app_nil_r.
    apply List.filter_ext_in. intros x Hx%list_elem_of_In.
    rewrite Forall_forall in Hall. eapply numbered_header, Hall, Hx. }
  split; [done|]. split; [by rewrite Hh|]. split; [|by rewrite Hm].
  rewrite Hh. rewrite <- (length_map label_number), Hnum.
  by rewrite length_map, length_seq.
Qed.

(** C4, as the code has it: a non-blank line without keyword leaves the
    counter and the labels, and pops the entries of the nesting stack whose
    depth is at least its own indentation.  The stack is left as it is when
    the line is indented deeper than the top entry; the output is unchanged
    by inserting the line in front of a non-blank line that is not indented
    deeper than it, or in front of blank lines only. *)
Theorem non_keyword_line_effect (line : string) :
  is_blank line = false -> extract_keyword line = None ->
  (forall s,
      count (labeler_step s line) = count s
      /\ listM (labeler_step s line) = listM s
      /\ stack (labeler_step s line) = pop_blocks (indent_level line) (stack s))
  /\ (forall s,
      match stack s with
      | [] => True
      | (l, _) :: _ => l < indent_level line
      end -> labeler_step s line = s)
  /\ (forall pre next post,
      is_blank next = false -> indent_level next <= indent_level line ->
      build_listM_lines (pre ++ line :: next :: post)
      = build_listM_lines (pre ++ next :: post))
  /\ (forall pre post,
      Forall (fun l => is_blank l = true) post ->
      build_listM_lines (pre ++ line :: post) = build_listM_lines (pre ++ post)).
Proof.
  intros Hb Hk. split; [|split; [|split]].
  - intros s. by rewrite labeler_step_other.
  - intros s Hs. rewrite labeler_step_other by done.
    destruct s as [c [|[l lab] stk] m]; simpl in *; [done|].
    assert ((indent_level line <=? l) = false) as -> by (apply Nat.leb_gt; lia).
    done.
  - intros pre next post Hbn Hle.
    unfold build_listM_lines. rewrite !labeler_run_app.
    set (s := labeler_run labeler_init pre).
    unfold labeler_run. simpl foldl.
    assert (labeler_step (labeler_step s line) next = labeler_step s next) as ->;
      [|done].
    rewrite (labeler_step_other s line) by done.
    unfold labeler_step. rewrite Hbn. simpl.
    by rewrite pop_blocks_twice.
  - intros pre post Hpost.
    unfold build_listM_lines. rewrite !labeler_run_app.
    set (s := labeler_run labeler_init pre).
    unfold labeler_run at 1. simpl foldl.
    assert (Hrun : forall s', labeler_run s' post = s').
    { clear -Hpost. induction Hpost as [|l post Hl _ IH]; intros s'; [done|].
      unfold labeler_run in *. simpl. rewrite labeler_step_blank by done. auto. }
    rewrite !Hrun. by rewrite labeler_step_other.
Qed.

Lemma non_keyword_line_effect_witness :
  count (labeler_step (labeler_run labeler_init dedent_pre) "z = 2")
  = count (labeler_run labeler_init dedent_pre)
  /\ listM (labeler_step (labeler_run labeler_init dedent_pre) "z = 2")
     = listM (labeler_run labeler_init dedent_pre)
  /\ stack (labeler_step (labeler_run labeler_init dedent_pre) "z = 2")
     = pop_blocks (indent_level "z = 2")
         (stack (labeler_run labeler_init dedent_pre)).
Proof.
  apply (non_keyword_line_effect "z = 2"); reflexivity.
Defined.

(** C4 as stated fails: the line [z = 2] is not blank and carries no keyword,
    yet it empties the nesting stack and turns the label of the following
    [while] from nested to plain. *)
Lemma non_keyword_line_changes_output :
  is_blank "z = 2" = false
  /\ extract_keyword "z = 2" = None
  /\ stack (labeler_step (labeler_run labeler_init dedent_pre) "z = 2")
     <> stack (labeler_run labeler_init dedent_pre)
  /\ build_listM_lines (dedent_pre ++ dedent_post)
     = ["start"; "if1"; "ifexp1"; "whilesp2"; "end"]
  /\ build_listM_lines (dedent_pre ++ "z = 2" :: dedent_post)
     = ["start"; "if1"; "ifexp1"; "while2"; "end"]
  /\ build_listM_lines (dedent_pre ++ "z = 2" :: dedent_post)
     <> build_listM_lines (dedent_pre ++ dedent_post).
Proof. vm_compute. repeat split; discriminate. Qed.

End LabelerClaims.

(** * Facts about the path enumerator *)

Section PathFacts.

Context (d : gmap string (list string)).

Lemma successor_in_all k node :
  node ∈ successors d k -> node ∈ all_successors d.
Proof.
  unfold successors, all_successors.
  destruct (d !! k) as [l|] eqn:E; simpl; [|by intros ?%elem_of_nil].
  intros H. apply list_elem_of_In, in_concat. exists l. split.
  - apply in_map_iff. exists (k, l). split; [done|].
    by apply list_elem_of_In, elem_of_map_to_list.
  - by apply list_elem_of_In.
Qed.

Lemma unvisited_le univ path : unvisited univ path <= length univ.
Proof. apply length_filter. Qed.

Lemma unvisited_lt univ path node :
  node ∈ univ -> node ∉ path ->
  unvisited univ (path ++ [node]) < unvisited univ path.
Proof.
  intros Hu Hp. unfold unvisited.
  rewrite (list_filter_iff _ (fun x => x <> node /\ x ∉ path)).
  - rewrite <- list_filter_filter. apply length_filter_lt with node.
    + by apply list_elem_of_filter.
    + naive_solver.
  - intros x. rewrite not_elem_of_app, list_elem_of_singleton. tauto.
Qed.

Lemma visit_successors_is_Some rec path nodes :
  (forall node, node ∈ nodes -> node ∉ path -> is_Some (rec node)) ->
  is_Some (visit_successors d rec path nodes).
Proof.
  induction nodes as [|node nodes IH]; intros H; simpl; [by eexists|].
  destruct IH as [r Hr].
  { intros n Hn. apply H. by right. }
  rewrite Hr. case_bool_decide; simpl; [by eexists|].
  destruct (H node) as [r' ->]; [by left|done|]. by eexists.
Qed.

Lemma visit_successors_mono rec rec' path nodes r :
  (forall n r', rec n = Some r' -> rec' n = Some r') ->
  visit_successors d rec path nodes = Some r ->
  visit_successors d rec' path nodes = Some r.
Proof.
  intros H. revert r. induction nodes as [|node nodes IH]; intros r; simpl; [done|].
  case_bool_decide.
  - destruct (visit_successors d rec path nodes) as [r0|]; [|done].
    by rewrite (IH r0).
  - destruct (rec node) as [r1|] eqn:E; [|done].
    rewrite (H _ _ E).
    destruct (visit_successors d rec path nodes) as [r0|]; [|done].
    by rewrite (IH r0).
Qed.

(** The result of the successor loop, successor by successor. *)
Lemma visit_successors_concat rec g path nodes r :
  (forall n, n ∈ nodes -> n ∉ path -> rec n = Some (g n)) ->
  visit_successors d rec path nodes = Some r ->
  r = concat (map (fun node =>
                     if bool_decide (node ∈ path)
                     then back_edge_scan node path (successors d node)
                     else g node) nodes).
Proof.
  revert r. induction nodes as [|node nodes IH]; intros r H; simpl.
  - by intros [= <-].
  - case_bool_decide.
    + destruct (visit_successors d rec path nodes) as [r0|]; [|done].
      simpl. intros [= <-]. f_equal. apply IH; [|done].
      intros n Hn. apply H. by right.
    + rewrite H by (done || by left).
      destruct (visit_successors d rec path nodes) as [r0|]; [|done].
      simpl. intros [= <-]. f_equal. apply IH; [|done].
      intros n Hn. apply H. by right.
Qed.

Lemma find_all_paths_fuel_mono fuel : forall fuel' source dest path0 r,
  fuel <= fuel' ->
  find_all_paths_fuel fuel d source dest path0 = Some r ->
  find_all_paths_fuel fuel' d source dest path0 = Some r.
Proof.
  induction fuel as [|fuel IH]; intros fuel' source dest path0 r Hle; [done|].
  destruct fuel' as [|fuel']; [lia|]. simpl.
  destruct (String.eqb source dest); [done|].
  apply visit_successors_mono. intros n r'. apply IH. lia.
Qed.

(** Enough fuel: more than the number of successor labels not yet on the
    path. *)
Lemma find_all_paths_fuel_enough fuel : forall source dest path0,
  unvisited (all_successors d) (path0 ++ [source]) < fuel ->
  is_Some (find_all_paths_fuel fuel d source dest path0).
Proof.
  induction fuel as [|fuel IH]; intros source dest path0 Hlt; [lia|].
  simpl. destruct (String.eqb source dest); [by eexists|].
  apply visit_successors_is_Some. intros node Hn Hp. apply IH.
  pose proof (unvisited_lt (all_successors d) _ node
                (successor_in_all _ _ Hn) Hp). lia.
Qed.

(** [find_all_paths] returns: the depth bound of its definition is never
    reached. *)
Lemma find_all_paths_total source dest path0 :
  find_all_paths_fuel (S (length (all_successors d))) d source dest path0
  = Some (find_all_paths d source dest path0).
Proof.
  unfold find_all_paths.
  destruct (find_all_paths_fuel_enough (S (length (all_successors d)))
              source dest path0) as [r ->]; [|done].
  pose proof (unvisited_le (all_successors d) (path0 ++ [source])). lia.
Qed.

(** The recursion equation of [find_all_paths]. *)
Lemma find_all_paths_unfold source dest path0 :
  find_all_paths d source dest path0 =
    let path := path0 ++ [source] in
    if String.eqb source dest then [path]
    else concat (map (fun node =>
                        if bool_decide (node ∈ path)
                        then back_edge_scan node path (successors d node)
                        else find_all_paths d node dest path)
                     (successors d source)).
Proof.
  pose proof (find_all_paths_total source dest path0) as Ht.
  simpl in Ht. simpl.
  destruct (String.eqb source dest); [by injection Ht|].
  eapply visit_successors_concat; [|exact Ht].
  intros n Hn Hp. simpl.
  destruct (find_all_paths_fuel_enough (length (all_successors d))
              n dest (path0 ++ [source])) as [r Hr].
  { pose proof (unvisited_lt (all_successors d) _ n
                  (successor_in_all _ _ Hn) Hp).
    pose proof (unvisited_le (all_successors d) (path0 ++ [source])). lia. }
  rewrite Hr. f_equal.
  pose proof (find_all_paths_total n dest (path0 ++ [source])) as Ht'.
  pose proof (find_all_paths_fuel_mono (length (all_successors d))
                (S (length (all_successors d))) _ _ _ _
                (Nat.le_succ_diag_r _) Hr) as Hm.
  rewrite Hm in Ht'. by injection Ht'.
Qed.

Lemma back_edge_scan_elem node path succs p :
  p ∈ back_edge_scan node path succs -> p = path ++ [node; "end"].
Proof.
  induction succs as [|i succs IH]; simpl; [by intros ?%elem_of_nil|].
  destruct (String.eqb i node); [by intros ?%elem_of_nil|].
  destruct (String.eqb i "end"); [|done].
  by intros ->%list_elem_of_singleton.
Qed.

Lemma visit_successors_elem rec path nodes r p :
  visit_successors d rec path nodes = Some r -> p ∈ r ->
  (exists node, node ∈ nodes /\ node ∈ path /\ p = path ++ [node; "end"])
  \/ (exists node r', node ∈ nodes /\ (node ∉ path)
                      /\ rec node = Some r' /\ p ∈ r').
Proof.
  revert r. induction nodes as [|node nodes IH]; intros r; simpl.
  - intros [= <-]. by intros ?%elem_of_nil.
  - assert (Hrest : forall r0, visit_successors d rec path nodes = Some r0 ->
                               p ∈ r0 -> _) by (intros r0; apply IH).
    case_bool_decide.
    + destruct (visit_successors d rec path nodes) as [r0|]; [|done].
      simpl. intros [= <-]. rewrite elem_of_app. intros [Hp|Hp].
      * left. exists node. split; [by left|]. split; [done|].
        by eapply back_edge_scan_elem.
      * destruct (Hrest r0 eq_refl Hp) as [(n & ? & ?)|(n & r' & ? & ?)].
        -- left. exists n. split; [by right|done].
        -- right. exists n, r'. split; [by right|done].
    + destruct (rec node) as [r1|] eqn:E; [|done].
      destruct (visit_successors d rec path nodes) as [r0|]; [|done].
      simpl. intros [= <-]. rewrite elem_of_app. intros [Hp|Hp].
      * right. exists node, r1. split; [by left|done].
      * destruct (Hrest r0 eq_refl Hp) as [(n & ? & ?)|(n & r' & ? & ?)].
        -- left. exists n. split; [by right|done].
        -- right. exists n, r'. split; [by right|done].
Qed.

End PathFacts.

(** * Claims about the path enumerator *)

Section PathClaims.

(** Paths of a call whose prefix has no repeated label and no ["end"]. *)
Lemma find_all_paths_fuel_shape d fuel : forall source path0 r p,
  NoDup (path0 ++ [source]) -> "end" ∉ path0 ->
  find_all_paths_fuel fuel d source "end" path0 = Some r -> p ∈ r ->
  (path0 ++ [source]) `prefix_of` p
  /\ last p = Some "end"
  /\ (NoDup p
      \/ exists q node, p = q ++ [node; "end"]
                        /\ NoDup q /\ node ∈ q /\ "end" ∉ q).
Proof.
  induction fuel as [|fuel IH]; intros source path0 r p Hnd Hend; [done|].
  simpl. destruct (String.eqb_spec source "end") as [->|Hne].
  - intros [= <-] ->%list_elem_of_singleton.
    split; [done|]. split; [apply last_snoc|by left].
  - intros Hv Hp.
    assert (Hend' : "end" ∉ path0 ++ [source]).
    { rewrite not_elem_of_app, list_elem_of_singleton. split; congruence. }
    destruct (visit_successors_elem _ _ _ _ _ _ Hv Hp)
      as [(node & _ & Hin & ->)|(node & r' & _ & Hnin & Hrec & Hp')].
    + split; [by apply prefix_app_r|].
      split; [by rewrite (assoc_L (++) _ [node] ["end"]), last_snoc|].
      right. by exists (path0 ++ [source]), node.
    + destruct (IH node (path0 ++ [source]) r' p) as (Hpre & Hlast & Hshape);
        try done.
      { apply NoDup_app. split; [done|]. split; [|apply NoDup_singleton].
        intros x Hx ->%list_elem_of_singleton. done. }
      split; [|done].
      etrans; [|exact Hpre]. by apply prefix_app_r.
Qed.

(** C7: called with source ["start"] and destination ["end"] the enumerator
    returns, and every path it returns begins with ["start"] and ends with
    ["end"]; a returned path either repeats no label, or is a synthetic
    path [q ++ [node; "end"]] whose prefix [q] repeats no label and holds
    the back-edge node, which is therefore appended exactly once. *)
Theorem paths_start_to_end (d : gmap string (list string)) :
  find_all_paths_fuel (S (length (all_successors d))) d "start" "end" []
  = Some (find_all_paths d "start" "end" [])
  /\ forall p, p ∈ find_all_paths d "start" "end" [] ->
       head p = Some "start"
       /\ last p = Some "end"
       /\ (NoDup p
           \/ exists q node, p = q ++ [node; "end"]
                             /\ NoDup q /\ node ∈ q /\ ("end" ∉ q)
                             /\ length (List.filter (String.eqb node) p) = 2).
Proof.
  pose proof (find_all_paths_total d "start" "end" []) as Ht.
  split; [done|]. intros p Hp.
  destruct (find_all_paths_fuel_shape d _ "start" [] _ p
              (NoDup_singleton _) (not_elem_of_nil _) Ht Hp)
    as (Hpre & Hlast & Hshape).
  split; [by destruct Hpre as [k ->]|]. split; [done|].
  destruct Hshape as [?|(q & node & -> & Hnd & Hin & Hend)]; [by left|].
  right. exists q, node. repeat split; try done.
  rewrite List.filter_app. simpl. rewrite String.eqb_refl.
  destruct (String.eqb_spec node "end") as [->|_]; [done|].
  rewrite length_app. simpl.
  clear -Hnd Hin. induction Hnd as [|x q Hx Hnd IH]; [by apply elem_of_nil in Hin|].
  simpl. destruct (String.eqb_spec node x) as [->|Hne].
  - simpl. f_equal.
    assert (List.filter (String.eqb x) q = []) as ->; [|done].
    clear -Hx. induction q as [|y q IH]; [done|]. simpl.
    destruct (String.eqb_spec x y) as [->|_].
    + destruct Hx. by left.
    + apply IH. intros ?. apply Hx. by right.
  - apply IH. apply elem_of_cons in Hin as [?|?]; done.
Qed.

Lemma paths_start_to_end_witness :
  head ["start"; "a"; "b"; "a"; "end"] = Some "start"
  /\ last ["start"; "a"; "b"; "a"; "end"] = Some "end".
Proof.
  destruct (paths_start_to_end adj_loop_end) as [_ H].
  destruct (H ["start"; "a"; "b"; "a"; "end"]) as (Hh & Hl & _).
  - apply (bool_decide_unpack _). vm_compute. exact I.
  - split; [exact Hh|exact Hl].
Defined.

(** C3, as the code has it: for any destination other than the source, the
    result is the concatenation, successor by successor, of the recursive
    results and of the back-edge scans; a back-edge scan goes through the
    successors of the node in order, stops without a path at the node
    itself, and stops with the path [path ++ [node; "end"]] at the literal
    label ["end"], whatever the destination is. *)
Theorem back_edge_rule (d : gmap string (list string))
    (source dest : string) (path0 : list string) :
  source <> dest ->
  let path := path0 ++ [source] in
  find_all_paths d source dest path0
  = concat (map (fun node =>
                   if bool_decide (node ∈ path)
                   then back_edge_scan node path (successors d node)
                   else find_all_paths d node dest path)
                (successors d source))
  /\ (forall node pre post,
        successors d node = pre ++ node :: post -> "end" ∉ pre ->
        back_edge_scan node path (successors d node) = [])
  /\ (forall node pre post,
        successors d node = pre ++ "end" :: post -> node ∉ pre ->
        node <> "end" ->
        back_edge_scan node path (successors d node) = [path ++ [node; "end"]])
  /\ (forall node,
        node ∉ successors d node -> "end" ∉ successors d node ->
        back_edge_scan node path (successors d node) = []).
Proof.
  intros Hne path. split; [|split; [|split]].
  - rewrite find_all_paths_unfold. simpl.
    by destruct (String.eqb_spec source dest).
  - intros node pre post -> Hpre.
    induction pre as [|i pre IH]; simpl.
    + by rewrite String.eqb_refl.
    + apply not_elem_of_cons in Hpre as [Hi Hpre].
      destruct (String.eqb_spec i node); [done|].
      destruct (String.eqb_spec i "end"); [congruence|]. auto.
  - intros node pre post -> Hpre Hnode.
    induction pre as [|i pre IH]; cbn [app back_edge_scan].
    + destruct (String.eqb_spec "end" node); [congruence|done].
    + apply not_elem_of_cons in Hpre as [Hi Hpre].
      destruct (String.eqb_spec i node); [congruence|].
      destruct (String.eqb_spec i "end") as [->|]; [|auto].
      (* an earlier ["end"] gives the same path *)
      done.
  - intros node. generalize (successors d node). intros succs.
    induction succs as [|i succs IH]; simpl; [done|].
    intros [Hi Hs]%not_elem_of_cons [Hi' Hs']%not_elem_of_cons.
    destruct (String.eqb_spec i node); [congruence|].
    destruct (String.eqb_spec i "end"); [congruence|]. auto.
Qed.

Lemma back_edge_rule_witness :
  "b" <> "z"
  /\ back_edge_scan "a" ["a"; "b"] (successors adj_loop_end "a")
     = [["a"; "b"; "a"; "end"]]
  /\ find_all_paths adj_loop_end "b" "z" ["a"]
     = concat (map (fun node =>
                      if bool_decide (node ∈ ["a"; "b"])
                      then back_edge_scan node ["a"; "b"]
                             (successors adj_loop_end node)
                      else find_all_paths adj_loop_end node "z" ["a"; "b"])
                   (successors adj_loop_end "b")).
Proof.
  split; [discriminate|]. split; [reflexivity|].
  apply (back_edge_rule adj_loop_end "b" "z" ["a"]). discriminate.
Defined.

(** C3 as stated fails: with destination [z] the back-edge scan of [a]
    meets [z] and adds nothing, where the claim has it add
    [["a"; "b"; "a"; "z"]]. *)
Lemma back_edge_ignores_dest :
  find_all_paths adj_loop_z "a" "z" [] = [["a"; "z"]]
  /\ (["a"; "b"; "a"; "z"] ∉ find_all_paths adj_loop_z "a" "z" [])
  /\ back_edge_scan "a" ["a"; "b"] (successors adj_loop_z "a") = [].
Proof.
  split; [by vm_compute|]. split; [|by vm_compute].
  apply (bool_decide_unpack _). by vm_compute.
Qed.

End PathClaims.

(** * Facts about the edge generator *)

Section EdgeFacts.

Lemma find_drop_lookup (P : string -> bool) (l : list string) k x :
  List.find P (drop k l) = Some x ->
  exists j, k <= j /\ l !! j = Some x /\ P x = true.
Proof.
  revert k. induction l as [|y l IH]; intros k.
  - by rewrite drop_nil.
  - destruct k as [|k].
    + simpl. destruct (P y) eqn:E.
      * intros [= <-]. exists 0. done.
      * intros H. destruct (IH 0 H) as (j & _ & ? & ?). exists (S j).
        split; [lia|done].
    + simpl. intros H. destruct (IH k H) as (j & ? & ? & ?). exists (S j).
      split; [lia|done].
Qed.

Lemma find_from_lookup_aux (P : string -> bool) (l : list string) :
  forall k0 j x, find_from P l k0 = Some (j, x) ->
  k0 <= j /\ l !! (j - k0) = Some x /\ P x = true.
Proof.
  induction l as [|y l IH]; intros k0 j x; simpl; [done|].
  destruct (P y) eqn:E.
  - intros [= <- <-]. rewrite Nat.sub_diag. done.
  - intros H. destruct (IH _ _ _ H) as (? & ? & ?).
    split; [lia|]. split; [|done].
    replace (j - k0) with (S (j - S k0)) by lia. done.
Qed.

Lemma find_from_lookup (P : string -> bool) (l : list string) k j x :
  find_from P (drop k l) k = Some (j, x) ->
  k <= j /\ l !! j = Some x /\ P x = true.
Proof.
  intros H. destruct (find_from_lookup_aux _ _ _ _ _ H) as (? & Hl & ?).
  rewrite lookup_drop in Hl. replace (k + (j - k)) with j in Hl by lia. done.
Qed.

Ltac step_edge_tac :=
  first
    [ apply edge_self
    | apply edge_next
    | apply edge_end
    | (apply edge_exp_end;
       match goal with
       | H : _ && _ = true |- _ => by apply andb_prop in H as [_ ?]
       end)
    | (eapply edge_later; [|eassumption]; lia)
    | (eapply edge_prev; eassumption)
    | (apply edge_marker; unfold nested_loop;
       match goal with
       | H : startswith _ _ = true |- _ => rewrite H
       end; by rewrite ?orb_true_r) ].

(** One iteration appends edges, and only edges of the listed shapes. *)
Lemma cfg_step_edges listM s i cur nxt :
  listM !! i = Some cur -> listM !! (i + 1) = Some nxt ->
  exists new,
    edges (cfg_step listM s i) = edges s ++ new
    /\ Forall (step_edge listM i cur nxt) new.
Proof.
  intros Hc Hn. unfold cfg_step. rewrite Hc, Hn. cbv zeta.
  repeat case_match; unfold set_edges; cbn [edges];
    repeat match goal with
      | H : List.find _ (drop _ _) = Some _ |- _ =>
          apply find_drop_lookup in H as (? & ? & ? & ?)
      | H : find_from _ (drop _ _) _ = Some _ |- _ =>
          apply find_from_lookup in H as (? & ? & ?)
      end;
    rewrite <- ?app_assoc;
    (first [ eexists; split; [reflexivity|]
           | exists []; split; [by rewrite app_nil_r|] ]);
    cbn [app]; repeat first [apply Forall_nil_2 | apply Forall_cons_2];
    step_edge_tac.
Qed.

Lemma cfg_step_out_of_range listM s i :
  listM !! (i + 1) = None -> cfg_step listM s i = s.
Proof. unfold cfg_step. intros ->. by destruct (listM !! i). Qed.

Lemma cfg_fold_edges listM (idx : list nat) : forall s,
  Forall (fun i => 1 <= i) idx ->
  Forall (loop_edge listM) (edges s) ->
  Forall (loop_edge listM) (edges (foldl (cfg_step listM) s idx)).
Proof.
  induction idx as [|i idx IH]; intros s Hi Hs; [done|].
  simpl. apply Forall_cons in Hi as [Hi His]. apply IH; [done|].
  destruct (listM !! (i + 1)) as [nxt|] eqn:Hn;
    [|by rewrite cfg_step_out_of_range].
  destruct (listM !! i) as [cur|] eqn:Hc.
  - destruct (cfg_step_edges listM s i cur nxt Hc Hn) as (new & -> & Hnew).
    apply Forall_app. split; [done|].
    eapply Forall_impl; [exact Hnew|]. intros e He. right.
    by exists i, cur, nxt.
  - apply lookup_lt_Some in Hn. apply lookup_ge_None in Hc. lia.
Qed.

Lemma cfg_loop_edges listM : Forall (loop_edge listM) (edges (cfg_loop listM)).
Proof.
  unfold cfg_loop. apply cfg_fold_edges.
  - apply Forall_forall. intros i [? _]%elem_of_seq. lia.
  - unfold cfg_init. simpl. destruct listM as [|a [|b rest]]; try constructor.
    + left. by exists a, b, rest.
    + constructor.
Qed.

(** The de-duplication loop. *)
Lemma dedup_fold (es : list (string * string)) : forall acc,
  (forall e, e ∈ acc.1 <-> e ∈ acc.2) -> NoDup acc.2 ->
  let r := foldl dedup_step acc es in
  (forall e, e ∈ r.1 <-> e ∈ r.2) /\ NoDup r.2
  /\ (forall e, e ∈ r.2 <-> e ∈ acc.2 \/ e ∈ es).
Proof.
  induction es as [|x es IH]; intros [seen uniq] Hseen Hnd; simpl in *.
  - split; [done|]. split; [done|]. intros e. split; [by left|].
    intros [?|?%elem_of_nil]; done.
  - destruct (decide (x ∈ seen)) as [Hx|Hx].
    + assert (dedup_step (seen, uniq) x = (seen, uniq)) as ->.
      { unfold dedup_step. simpl. rewrite bool_decide_eq_false_2; [done|].
        by intros H. }
      destruct (IH (seen, uniq)) as (H1 & H2 & H3); simpl; [done..|].
      split; [done|]. split; [done|]. intros e. rewrite H3. simpl.
      rewrite elem_of_cons. apply Hseen in Hx.
      split; [tauto|]. intros [?|[->|?]]; tauto.
    + assert (dedup_step (seen, uniq) x = ({[x]} ∪ seen, uniq ++ [x])) as ->.
      { unfold dedup_step. simpl. by rewrite bool_decide_eq_true_2. }
      destruct (IH ({[x]} ∪ seen, uniq ++ [x])) as (H1 & H2 & H3); simpl.
      * intros e. rewrite elem_of_union, elem_of_singleton, elem_of_app,
          list_elem_of_singleton, Hseen. tauto.
      * apply NoDup_app. split; [done|]. split; [|apply NoDup_singleton].
        intros e He ->%list_elem_of_singleton. by apply Hx, Hseen.
      * split; [done|]. split; [done|]. intros e. rewrite H3. simpl.
        rewrite elem_of_app, list_elem_of_singleton, elem_of_cons. tauto.
Qed.

Lemma dedup_init (e : string * string) :
  e ∈ (∅ : gset (string * string)) <-> e ∈ @nil (string * string).
Proof. split; [by intros ?%not_elem_of_empty|by intros ?%elem_of_nil]. Qed.

Lemma dedup_edges_NoDup es : NoDup (dedup_edges es).
Proof.
  unfold dedup_edges.
  by destruct (dedup_fold es (∅, []) dedup_init NoDup_nil_2) as (_ & H & _).
Qed.

Lemma dedup_edges_elem es e : e ∈ dedup_edges es <-> e ∈ es.
Proof.
  unfold dedup_edges.
  destruct (dedup_fold es (∅, []) dedup_init NoDup_nil_2) as (_ & _ & H).
  rewrite H. simpl. split; [intros [?%elem_of_nil|?]; done|by right].
Qed.

(** First occurrences are kept, in their order. *)
Lemma dedup_edges_snoc es e :
  dedup_edges (es ++ [e])
  = if bool_decide (e ∈ es) then dedup_edges es else dedup_edges es ++ [e].
Proof.
  unfold dedup_edges. rewrite foldl_app. simpl.
  destruct (dedup_fold es (∅, []) dedup_init NoDup_nil_2) as (H1 & _ & H3).
  assert (Hiff : e ∈ (foldl dedup_step (∅, []) es).1 <-> e ∈ es).
  { rewrite H1, H3. simpl. split; [intros [?%elem_of_nil|?]; done|by right]. }
  unfold dedup_step at 1.
  repeat case_bool_decide; try done; tauto.
Qed.

Lemma create_nodes_elem_aux (l : list string) : forall acc x,
  x ∈ foldl (fun keys y => if bool_decide (y ∈ keys) then keys else keys ++ [y])
            acc l <-> x ∈ acc \/ x ∈ l.
Proof.
  induction l as [|y l IH]; intros acc x; simpl.
  - split; [by left|]. intros [?|?%elem_of_nil]; done.
  - rewrite IH, elem_of_cons. case_bool_decide.
    + split; [tauto|]. intros [?|[->|?]]; tauto.
    + rewrite elem_of_app, list_elem_of_singleton. tauto.
Qed.

Lemma create_nodes_elem l x : x ∈ create_nodes l <-> x ∈ l.
Proof.
  unfold create_nodes. rewrite create_nodes_elem_aux.
  split; [intros [?%elem_of_nil|?]; done|by right].
Qed.

End EdgeFacts.

(** * Claims about the edge generator *)

Section EdgeClaims.

Lemma cfg_edges_elem listM e :
  e ∈ cfg_edges listM -> loop_edge listM e.
Proof.
  change (cfg_edges listM) with (dedup_edges (edges (cfg_loop listM))).
  rewrite dedup_edges_elem.
  pose proof (cfg_loop_edges listM) as H. rewrite Forall_forall in H. apply H.
Qed.

(** C5, as the code has it: the edge list holds no pair twice and keeps
    first occurrences in their order; the source of every edge is in the
    node list; the destination of an edge whose source is not a nested loop
    token ([forsp...], [whilesp...]) is in the node list or is the literal
    ["end"].  So with ["end"] among the labels and no nested loop token,
    every edge lies in node x node. *)
Theorem edges_unique_and_anchored (listM : list string) :
  NoDup (cfg_edges listM)
  /\ cfg_edges listM = dedup_edges (edges (cfg_loop listM))
  /\ (forall es e,
        dedup_edges (es ++ [e])
        = if bool_decide (e ∈ es) then dedup_edges es else dedup_edges es ++ [e])
  /\ (forall a b, (a, b) ∈ cfg_edges listM ->
        a ∈ cfg_nodes listM
        /\ (nested_loop a = false -> b ∈ cfg_nodes listM \/ b = "end"))
  /\ ("end" ∈ listM -> Forall (fun x => nested_loop x = false) listM ->
      forall a b, (a, b) ∈ cfg_edges listM ->
        a ∈ cfg_nodes listM /\ b ∈ cfg_nodes listM).
Proof.
  assert (Hmain : forall a b, (a, b) ∈ cfg_edges listM ->
            a ∈ cfg_nodes listM
            /\ (nested_loop a = false -> b ∈ cfg_nodes listM \/ b = "end")).
  { intros a b He. change (cfg_nodes listM) with (create_nodes listM).
    rewrite !create_nodes_elem.
    destruct (cfg_edges_elem _ _ He)
      as [(a' & b' & rest & -> & [= -> ->])
         |(i & cur & nxt & Hi & Hc & Hn & Hstep)].
    - split; [by left|]. intros _. left. right. by left.
    - apply list_elem_of_lookup_2 in Hc as Hcur.
      apply list_elem_of_lookup_2 in Hn as Hnxt.
      inversion Hstep; subst; (split; [done|]); intros Hnl;
        try (by left); try (by right); try congruence.
      + left. by eapply list_elem_of_lookup_2.
      + left. by eapply list_elem_of_lookup_2. }
  split; [apply dedup_edges_NoDup|]. split; [done|].
  split; [apply dedup_edges_snoc|]. split; [exact Hmain|].
  intros Hend Hall a b He. destruct (Hmain a b He) as [Ha Hb].
  split; [done|].
  change (cfg_nodes listM) with (create_nodes listM) in *.
  rewrite create_nodes_elem in Ha. rewrite Forall_forall in Hall.
  destruct (Hb (Hall a Ha)) as [?| ->]; [done|].
  by rewrite create_nodes_elem.
Qed.

Lemma edges_unique_and_anchored_witness :
  "if1" ∈ cfg_nodes (build_listM sample_program)
  /\ "elif2" ∈ cfg_nodes (build_listM sample_program).
Proof.
  apply (edges_unique_and_anchored (build_listM sample_program));
    [ apply (bool_decide_unpack _); vm_compute; exact I
    | apply (bool_decide_unpack _); vm_compute; exact I
    | apply (bool_decide_unpack _); vm_compute; exact I ].
Defined.

(** C5 as stated fails: the expression label of a label sequence that does
    not hold ["end"] still gets its edge to ["end"], and the nested [while]
    of a two-level loop gets an edge to ["f"]; neither is in the node
    list. *)
Lemma edge_leaves_node_list :
  (("ifexp1", "end") ∈ cfg_edges ["start"; "if1"; "ifexp1"]
   /\ "end" ∉ cfg_nodes ["start"; "if1"; "ifexp1"])
  /\ (build_listM nested_while_program
      = ["start"; "while1"; "whilesp2"; "end"]
      /\ ("whilesp2", "f") ∈ cfg_edges ["start"; "while1"; "whilesp2"; "end"]
      /\ "f" ∉ cfg_nodes ["start"; "while1"; "whilesp2"; "end"]).
Proof.
  split; [split|split; [|split]];
    first [ vm_compute; reflexivity
          | apply (bool_decide_unpack _); vm_compute; exact I ].
Qed.

(** C10: when ["start"] occurs at most as the first label and ["end"] at
    most as the last, no edge leads to ["start"] and none leaves ["end"]. *)
Theorem start_source_end_sink (listM : list string) :
  "start" ∉ drop 1 listM ->
  "end" ∉ take (length listM - 1) listM ->
  forall a b, (a, b) ∈ cfg_edges listM -> b <> "start" /\ a <> "end".
Proof.
  intros Hs He a b Hab.
  assert (Hstart : forall j, 1 <= j -> listM !! j <> Some "start").
  { intros j Hj Hl. apply Hs. apply list_elem_of_lookup. exists (j - 1).
    rewrite lookup_drop. by replace (1 + (j - 1)) with j by lia. }
  assert (Hend : forall j, j + 1 < length listM -> listM !! j <> Some "end").
  { intros j Hj Hl. apply He. apply elem_of_take. exists j. split; [done|lia]. }
  destruct (cfg_edges_elem _ _ Hab)
    as [(a' & b' & rest & -> & [= -> ->])
       |(i & cur & nxt & Hi & Hc & Hn & Hstep)].
  - split.
    + intros ->. by apply (Hstart 1).
    + intros ->. apply (Hend 0); [simpl; lia|done].
  - pose proof (lookup_lt_Some _ _ _ Hn) as Hlen.
    assert (Hcs : cur <> "start") by (intros ->; by apply (Hstart i)).
    assert (Hce : cur <> "end") by (intros ->; by apply (Hend i)).
    assert (Hns : nxt <> "start") by (intros ->; apply (Hstart (i + 1)); [lia|done]).
    inversion Hstep; subst; (split; [|try done]); try done.
    + intros ->. apply (Hstart j); [lia|done].
    + intros ->.
      match goal with H : contains _ _ = true |- _ => vm_compute in H end.
      discriminate.
    + intros ->.
      match goal with H : _is_plain_exp _ = true |- _ => vm_compute in H end.
      discriminate.
Qed.

Lemma start_source_end_sink_witness :
  "elif2" <> "start" /\ "if1" <> "end".
Proof.
  apply (start_source_end_sink (build_listM sample_program));
    apply (bool_decide_unpack _); vm_compute; exact I.
Defined.

End EdgeClaims.

(** * Claims about the whole pipeline *)

Section PipelineClaims.

(** C1, as the code has it: on the sample program the labeler returns the
    nine labels of the claim and the node list is that sequence; the edge
    list holds eleven edges, the edge from ["start"] to ["if1"] and the ten
    pairs of the claim, so the complexity is 11 - 9 + 2 = 4. *)
Theorem scenario1_graph :
  let labels := build_listM sample_program in
  labels = ["start"; "if1"; "ifexp1"; "elif2"; "elifexp2"; "elif3";
            "elifexp3"; "else4"; "end"]
  /\ cfg_nodes labels = labels
  /\ length (cfg_nodes labels) = 9
  /\ cfg_edges labels
     = [("start", "if1");
        ("if1", "ifexp1"); ("if1", "elif2"); ("ifexp1", "end");
        ("elif2", "elifexp2"); ("elif2", "elif3"); ("elifexp2", "end");
        ("elif3", "elifexp3"); ("elif3", "else4"); ("elifexp3", "end");
        ("else4", "end")]
  /\ length (cfg_edges labels) = 11
  /\ complexity (cfg_nodes labels) (cfg_edges labels) = 4%Z.
Proof. vm_compute. repeat split. Qed.

(** C1 as stated fails: the edge list has eleven edges, not ten, and the
    complexity is 4, not 3. *)
Lemma scenario1_not_ten_edges :
  length (cfg_edges (build_listM sample_program)) <> 10
  /\ complexity (cfg_nodes (build_listM sample_program))
                (cfg_edges (build_listM sample_program)) <> 3%Z.
Proof. vm_compute. split; discriminate. Qed.

(** C8: a source text without keyword line gives the labels [start], [end],
    these two nodes, the single edge between them and the single path. *)
Theorem no_keyword_pipeline (source : string) :
  Forall (fun l => keyword_line l = false) (splitlines source) ->
  build_listM source = ["start"; "end"]
  /\ cfg_nodes (build_listM source) = ["start"; "end"]
  /\ cfg_edges (build_listM source) = [("start", "end")]
  /\ find_all_paths_fuel 2 (build_adj_from_edges (cfg_edges (build_listM source)))
       "start" "end" [] = Some [["start"; "end"]]
  /\ pipeline_paths source = [["start"; "end"]].
Proof.
  intros H.
  assert (Hl : build_listM source = ["start"; "end"]).
  { unfold build_listM, build_listM_lines.
    destruct (labeler_run_non_keyword labeler_init _ H) as (_ & -> & _). done. }
  unfold pipeline_paths. rewrite Hl. by vm_compute.
Qed.

Lemma no_keyword_pipeline_witness :
  pipeline_paths plain_program = [["start"; "end"]].
Proof.
  apply (no_keyword_pipeline plain_program).
  vm_compute. repeat constructor.
Defined.

(** C2, as the code has it: for a source whose only keyword line is a
    [while] header, the edge generator emits the self-loop at [while1] and
    the exit edge to ["end"], and the enumerator returns the one path
    through the header; the back-edge scan of [while1] meets the self-loop
    first and adds no synthetic path. *)
Theorem single_while_pipeline (source : string)
    (pre body : list string) (hdr rest : string) :
  splitlines source = pre ++ hdr :: body ->
  Forall (fun l => keyword_line l = false) pre ->
  is_blank hdr = false ->
  extract_keyword hdr = Some ("while", rest) ->
  Forall (fun l => keyword_line l = false) body ->
  build_listM source = ["start"; "while1"; "end"]
  /\ cfg_edges (build_listM source)
     = [("start", "while1"); ("while1", "while1"); ("while1", "end")]
  /\ back_edge_scan "while1" ["start"; "while1"]
       (successors (build_adj_from_edges (cfg_edges (build_listM source)))
                   "while1") = []
  /\ pipeline_paths source = [["start"; "while1"; "end"]].
Proof.
  intros Hsplit Hpre Hb Hk Hbody.
  assert (Hl : build_listM source = ["start"; "while1"; "end"]).
  { unfold build_listM, build_listM_lines. rewrite Hsplit.
    rewrite labeler_run_app.
    destruct (labeler_run_non_keyword labeler_init _ Hpre) as (Hc & Hm & Hs).
    set (s := labeler_run labeler_init pre) in *.
    unfold labeler_run at 1. simpl foldl. fold (labeler_run (labeler_step s hdr) body).
    destruct (labeler_run_non_keyword (labeler_step s hdr) _ Hbody) as (_ & -> & _).
    unfold labeler_step. rewrite Hb, Hk, Hs, Hc, Hm by done. done. }
  unfold pipeline_paths. rewrite Hl. by vm_compute.
Qed.

Lemma single_while_pipeline_witness :
  pipeline_paths while_program = [["start"; "while1"; "end"]].
Proof.
  apply (single_while_pipeline while_program
           [] ["    x = x - 1"] "while x > 0:" "x > 0:");
    vm_compute; repeat constructor.
Defined.

(** C2 as stated fails: the only path of a single [while] loop is the
    path through the header; no synthetic path with the header twice is
    returned. *)
Lemma single_while_no_synthetic_path :
  pipeline_paths while_program = [["start"; "while1"; "end"]]
  /\ (["start"; "while1"; "while1"; "end"] ∉ pipeline_paths while_program)
  /\ length (pipeline_paths while_program) <> 2.
Proof.
  split; [by vm_compute|]. split.
  - apply (bool_decide_unpack _). by vm_compute.
  - by vm_compute.
Qed.

End PipelineClaims.

(** * More about the text helpers and the labeler *)

Section LabelerMore.

Lemma lstrip_spaces_length s :
  String.length (lstrip_spaces s) <= String.length s.
Proof.
  induction s as [|c s IH]; simpl; [done|].
  destruct (Ascii.eqb c " "); simpl; lia.
Qed.

(** The indentation of a line, character by character: a leading space
    counts one, a leading tab four, any other first character (other
    white space included) ends the indentation. *)
Theorem indent_level_cons (c : ascii) (s : string) :
  indent_level "" = 0
  /\ indent_level (String c s)
     = if Ascii.eqb c " " then S (indent_level s)
       else if Ascii.eqb c "009" then 4 + indent_level s
       else 0.
Proof.
  split; [done|]. unfold indent_level. simpl.
  pose proof (lstrip_spaces_length (expand_tabs s)) as Hle.
  destruct (Ascii.eqb_spec c " ") as [->|Hsp].
  - simpl. lia.
  - destruct (Ascii.eqb_spec c "009") as [->|Htab].
    + rewrite !append_cons_l, append_nil_l. simpl. lia.
    + simpl. destruct (Ascii.eqb_spec c " "); [done|]. simpl. lia.
Qed.

Lemma startswith_app s p :
  startswith s p = true -> exists r, s = p +:+ r.
Proof.
  unfold startswith. revert s. induction p as [|a p IH]; intros s.
  - exists s. done.
  - destruct s as [|b s]; simpl; [done|].
    destruct (ascii_dec a b) as [->|]; [|done].
    intros [r ->]%IH. by exists r.
Qed.

Lemma startswith_app_true p r : startswith (p +:+ r) p = true.
Proof.
  unfold startswith. induction p as [|a p IH]; [by destruct r|].
  rewrite append_cons_l. simpl. by destruct (ascii_dec a a).
Qed.

(** No text starts with two different keywords, so the order in which
    [KEYWORDS] is scanned never matters: a keyword is returned exactly when
    the stripped line starts with it. *)
Theorem extract_keyword_iff (line kw : string) :
  (exists rest, extract_keyword line = Some (kw, rest))
  <-> In kw KEYWORDS /\ startswith (strip line) kw = true.
Proof.
  unfold extract_keyword. split.
  - intros [rest H].
    destruct (List.find _ KEYWORDS) as [k|] eqn:E; [|done].
    injection H as <- _. by apply find_some in E.
  - intros [Hin Hs]. apply startswith_app in Hs as [r Hr]. rewrite Hr.
    simpl in Hin.
    unfold KEYWORDS. cbn [List.find].
    destruct Hin as [<-|[<-|[<-|[<-|[<-|[]]]]]];
      repeat match goal with
        | |- context [startswith (?k +:+ r) ?k'] =>
            first [ rewrite (startswith_app_true k r)
                  | let H := fresh in
                    assert (H : startswith (k +:+ r) k' = false)
                      by (vm_compute; reflexivity);
                    rewrite H ]
        end;
      eexists; reflexivity.
Qed.

(** Blank lines are skipped: the loop reaches the same state, counter,
    stack and labels alike, with the blank lines removed. *)
Theorem blank_lines_ignored (s : labeler_state) (lines : list string) :
  labeler_run s lines
  = labeler_run s (List.filter (fun l => negb (is_blank l)) lines).
Proof.
  revert s. induction lines as [|l lines IH]; intros s; [done|].
  unfold labeler_run in *. simpl.
  destruct (is_blank l) eqn:Hb; simpl.
  - rewrite labeler_step_blank by done. apply IH.
  - apply IH.
Qed.

Lemma labeler_step_length s line :
  length (listM (labeler_step s line))
  = length (listM s) + (if keyword_line line then 1 else 0)
    + (if branch_line line then 1 else 0).
Proof.
  unfold keyword_line, branch_line.
  destruct (is_blank line) eqn:Hb; simpl.
  { rewrite labeler_step_blank by done. lia. }
  destruct (extract_keyword line) as [[kw r]|] eqn:Hk.
  - pose proof (extract_keyword_in _ _ _ Hk) as Hin.
    unfold labeler_step. rewrite Hb, Hk. simpl in Hin.
    destruct Hin as [<-|[<-|[<-|[<-|[<-|[]]]]]]; simpl;
      rewrite length_app; simpl; lia.
  - rewrite labeler_step_other by done. simpl. lia.
Qed.

(** The label sequence starts with [start], ends with [end], and holds one
    label per keyword line plus one more per [if] or [elif] line. *)
Theorem label_sequence_shape (lines : list string) :
  head (build_listM_lines lines) = Some "start"
  /\ last (build_listM_lines lines) = Some "end"
  /\ length (build_listM_lines lines)
     = 2 + length (List.filter keyword_line lines)
       + length (List.filter branch_line lines).
Proof.
  split; [done|]. split.
  { unfold build_listM_lines. by rewrite app_comm_cons, last_snoc. }
  unfold build_listM_lines. simpl. rewrite length_app. simpl.
  assert (H : forall s,
    length (listM (labeler_run s lines))
    = length (listM s) + length (List.filter keyword_line lines)
      + length (List.filter branch_line lines)).
  { induction lines as [|l lines IH]; intros s; [simpl; lia|].
    unfold labeler_run in *. simpl foldl. rewrite IH, labeler_step_length.
    simpl. destruct (keyword_line l), (branch_line l); simpl; lia. }
  rewrite H. simpl. lia.
Qed.

Lemma pop_blocks_decreasing lvl stk :
  depths_decreasing stk = true ->
  depths_decreasing (pop_blocks lvl stk) = true
  /\ match pop_blocks lvl stk with
     | (l, _) :: _ => l < lvl
     | [] => True
     end
  /\ (forall e, e ∈ pop_blocks lvl stk -> e ∈ stk).
Proof.
  induction stk as [|[l lab] stk IH]; intros Hd; [by repeat split|].
  cbn [pop_blocks]. destruct (lvl <=? l) eqn:E.
  - destruct IH as (H1 & H2 & H3).
    { simpl in Hd. destruct stk as [|[l2 lab2] stk]; [done|].
      by apply andb_prop in Hd as [_ ?]. }
    split; [done|]. split; [done|]. intros e He. right. auto.
  - apply Nat.leb_gt in E. by repeat split.
Qed.

Lemma labeler_step_stack s line :
  depths_decreasing (stack s) = true ->
  (forall e, e ∈ stack s -> e.2 ∈ listM s) ->
  depths_decreasing (stack (labeler_step s line)) = true
  /\ (forall e, e ∈ stack (labeler_step s line)
                -> e.2 ∈ listM (labeler_step s line)).
Proof.
  intros Hd Hin.
  destruct (pop_blocks_decreasing (indent_level line) (stack s) Hd)
    as (Hp1 & Hp2 & Hp3).
  destruct (keyword_line line) eqn:Hl.
  - destruct (labeler_step_keyword s line Hl)
      as (lab & exps & _ & -> & -> & _).
    split.
    + cbn [depths_decreasing].
      destruct (pop_blocks (indent_level line) (stack s)) as [|[l2 lab2] r];
        [done|].
      rewrite Hp1. by apply Nat.ltb_lt in Hp2 as ->.
    + intros e [->|He]%elem_of_cons.
      * simpl. rewrite elem_of_app. right. by left.
      * rewrite elem_of_app. left. auto.
  - apply keyword_line_false in Hl as [Hb|[Hb Hk]].
    + by rewrite labeler_step_blank.
    + rewrite labeler_step_other by done. simpl. split; [done|]. auto.
Qed.

(** The nesting stack after any number of lines: depths grow strictly
    towards the top, and every label on it has been emitted. *)
Theorem stack_invariant (lines : list string) :
  depths_decreasing (stack (labeler_run labeler_init lines)) = true
  /\ forall e, e ∈ stack (labeler_run labeler_init lines)
               -> e.2 ∈ listM (labeler_run labeler_init lines).
Proof.
  assert (H : forall s,
    depths_decreasing (stack s) = true ->
    (forall e, e ∈ stack s -> e.2 ∈ listM s) ->
    depths_decreasing (stack (labeler_run s lines)) = true
    /\ (forall e, e ∈ stack (labeler_run s lines)
                  -> e.2 ∈ listM (labeler_run s lines))).
  { induction lines as [|l lines IH]; intros s Hd Hin; [done|].
    unfold labeler_run in *. simpl foldl.
    destruct (labeler_step_stack s l Hd Hin). by apply IH. }
  apply H; [done|]. by intros e ?%elem_of_nil.
Qed.

(** The header label of a keyword line carries [sp] exactly when a block
    is still open after the blocks at its depth or deeper are closed. *)
Theorem nested_label_iff (s : labeler_state) (line : string) :
  keyword_line line = true ->
  exists lab exps,
    listM (labeler_step s line) = listM s ++ lab :: exps
    /\ contains "sp" lab = nonempty (pop_blocks (indent_level line) (stack s))
    /\ Forall (fun e => contains "sp" e = contains "sp" lab) exps
    /\ (indent_level line = 0 -> contains "sp" lab = false).
Proof.
  intros [Hb (kw & r & Hk)]%keyword_line_true.
  pose proof (extract_keyword_in _ _ _ Hk) as Hin.
  assert (H0 : indent_level line = 0 ->
               pop_blocks (indent_level line) (stack s) = []).
  { intros ->. induction (stack s) as [|[l lab] stk IH]; [done|]. done. }
  unfold labeler_step. rewrite Hb, Hk.
  set (stk := pop_blocks _ _) in *. simpl in Hin.
  assert (Hd : forall n, all_digits (str_of_nat n) = true)
    by apply str_of_nat_digits.
  destruct Hin as [<-|[<-|[<-|[<-|[<-|[]]]]]]; simpl;
    destruct (nonempty stk) eqn:Hne; simpl;
    eexists _, _; (split; [reflexivity|]);
    rewrite <- ?append_assoc_str;
    rewrite ?contains_app_digits by done;
    (split; [reflexivity|]);
    (split; [ repeat constructor;
              rewrite <- ?append_assoc_str;
              rewrite ?contains_app_digits by done; reflexivity |]);
    intros Hz; try reflexivity;
    rewrite (H0 Hz) in Hne; discriminate.
Qed.

Lemma nested_label_iff_witness :
  exists lab exps,
    listM (labeler_step (labeler_run labeler_init dedent_pre) "    while w:")
    = listM (labeler_run labeler_init dedent_pre) ++ lab :: exps
    /\ contains "sp" lab = true.
Proof.
  destruct (nested_label_iff (labeler_run labeler_init dedent_pre)
              "    while w:" eq_refl) as (lab & exps & H1 & H2 & _).
  exists lab, exps. split; [exact H1|exact H2].
Defined.

End LabelerMore.

(** * More about the edge generator *)

Section EdgeMore.

Lemma drop_chars_app p d : drop_chars (String.length p) (p +:+ d) = d.
Proof. induction p as [|a p IH]; [by destruct d|]. by rewrite append_cons_l. Qed.

Lemma fullmatch_same p d : fullmatch_lit_digits p (p +:+ d) = digits1 d.
Proof.
  unfold fullmatch_lit_digits. rewrite drop_chars_app.
  pose proof (startswith_app_true p d) as H. unfold startswith in H.
  by rewrite H.
Qed.

Lemma fullmatch_inv p t :
  fullmatch_lit_digits p t = true ->
  exists d, t = p +:+ d /\ digits1 d = true /\ all_digits d = true.
Proof.
  unfold fullmatch_lit_digits. intros [Hp Hd]%andb_prop.
  destruct (startswith_app t p Hp) as [d ->].
  rewrite drop_chars_app in Hd. exists d. split; [done|]. split; [done|].
  by destruct d.
Qed.

(** A label [q ++ digits] matches no other literal than [q]. *)
Lemma fullmatch_other p : forall q d,
  no_digit_chars p = true -> no_digit_chars q = true -> p <> q ->
  all_digits d = true ->
  fullmatch_lit_digits p (q +:+ d) = false.
Proof.
  unfold fullmatch_lit_digits.
  induction p as [|a p IH]; intros q d Hp Hq Hne Hd.
  - destruct q as [|b q]; [done|]. rewrite append_cons_l. simpl in *.
    apply andb_prop in Hq as [Hb _]. apply negb_true_iff in Hb. by rewrite Hb.
  - destruct q as [|b q].
    + rewrite (prefix_app_digits (String a p) "" d) by done. done.
    + rewrite append_cons_l. simpl in *.
      apply andb_prop in Hp as [_ Hp]. apply andb_prop in Hq as [_ Hq].
      destruct (ascii_dec a b) as [->|]; [|done].
      apply IH; try done. congruence.
Qed.

Lemma plain_exp_nonempty x : _is_plain_exp x = true -> truthy x = true.
Proof. by destruct x. Qed.

Lemma plain_header_not_exp cur :
  _is_plain_if cur || _is_plain_elif cur = true -> _is_plain_exp cur = false.
Proof.
  unfold _is_plain_if, _is_plain_elif, _is_plain_exp.
  intros [H|H]%orb_prop; apply fullmatch_inv in H as (d & -> & _ & Hd);
    by rewrite !fullmatch_other.
Qed.

Lemma plain_else_only cur :
  _is_plain_else cur = true ->
  _is_plain_exp cur = false /\ _is_plain_if cur || _is_plain_elif cur = false.
Proof.
  unfold _is_plain_if, _is_plain_elif, _is_plain_exp, _is_plain_else.
  intros (d & -> & _ & Hd)%fullmatch_inv. by rewrite !fullmatch_other.
Qed.

Lemma cfg_step_appends listM s i :
  exists new, edges (cfg_step listM s i) = edges s ++ new.
Proof.
  destruct (listM !! (i + 1)) as [nxt|] eqn:Hn.
  - destruct (listM !! i) as [cur|] eqn:Hc.
    + destruct (cfg_step_edges listM s i cur nxt Hc Hn) as (new & ? & _).
      by exists new.
    + apply lookup_lt_Some in Hn. apply lookup_ge_None in Hc. lia.
  - rewrite cfg_step_out_of_range by done. exists []. by rewrite app_nil_r.
Qed.

Lemma cfg_fold_appends listM idx : forall s,
  exists new, edges (foldl (cfg_step listM) s idx) = edges s ++ new.
Proof.
  induction idx as [|i idx IH]; intros s; simpl.
  - exists []. by rewrite app_nil_r.
  - destruct (IH (cfg_step listM s i)) as [new2 ->].
    destruct (cfg_step_appends listM s i) as [new1 ->].
    exists (new1 ++ new2). by rewrite app_assoc.
Qed.

Lemma cfg_loop_at listM i :
  1 <= i -> i + 1 < length listM ->
  exists s0 rest,
    cfg_loop listM = foldl (cfg_step listM) (cfg_step listM s0 i) rest.
Proof.
  intros H1 H2. unfold cfg_loop.
  replace (length listM - 2) with ((i - 1) + S (length listM - 2 - i)) by lia.
  rewrite seq_app, foldl_app. replace (1 + (i - 1)) with i by lia.
  simpl. by eexists _, _.
Qed.

(** What the iteration at an index appends stays in the edge list. *)
Lemma step_edge_kept listM i e :
  1 <= i -> i + 1 < length listM ->
  (forall s, e ∈ edges (cfg_step listM s i)) -> e ∈ cfg_edges listM.
Proof.
  intros H1 H2 He.
  change (cfg_edges listM) with (dedup_edges (edges (cfg_loop listM))).
  rewrite dedup_edges_elem.
  destruct (cfg_loop_at listM i H1 H2) as (s0 & rest & ->).
  destruct (cfg_fold_appends listM rest (cfg_step listM s0 i)) as [new ->].
  rewrite elem_of_app. left. apply He.
Qed.

(** Rule for a plain [if]/[elif] header followed by its expression label:
    edges header -> expression, expression -> ["end"], and header -> the
    first later label that is a plain [elif], a plain [else] or ["end"]. *)
Theorem branch_header_edges (listM : list string) (i : nat) (cur nxt : string) :
  1 <= i -> listM !! i = Some cur -> listM !! (i + 1) = Some nxt ->
  _is_plain_if cur || _is_plain_elif cur = true ->
  _is_plain_exp nxt = true ->
  (cur, nxt) ∈ cfg_edges listM
  /\ (nxt, "end") ∈ cfg_edges listM
  /\ (forall nb, List.find _is_branch_kw (drop (i + 2) listM) = Some nb ->
                 (cur, nb) ∈ cfg_edges listM).
Proof.
  intros Hi Hc Hn Hh He.
  pose proof (lookup_lt_Some _ _ _ Hn) as Hlen.
  assert (Hstep : forall s,
    edges (cfg_step listM s i)
    = edges s ++ [(cur, nxt)]
      ++ match List.find _is_branch_kw (drop (i + 2) listM) with
         | Some nb => [(cur, nb)]
         | None => []
         end ++ [(nxt, "end")]).
  { intros s. unfold cfg_step.
    rewrite Hc, Hn, (plain_header_not_exp _ Hh), Hh, He,
      (plain_exp_nonempty _ He). simpl.
    destruct (List.find _ _); simpl; by rewrite <- !app_assoc. }
  split; [|split].
  - apply (step_edge_kept listM i); [done..|]. intros s. rewrite Hstep.
    rewrite elem_of_app. right. by left.
  - apply (step_edge_kept listM i); [done..|]. intros s. rewrite Hstep.
    rewrite !elem_of_app. right. right. right. by left.
  - intros nb Hf. apply (step_edge_kept listM i); [done..|].
    intros s. rewrite Hstep, Hf. rewrite !elem_of_app. right. right. left.
    by left.
Qed.

Lemma branch_header_edges_witness :
  ("elif2", "elifexp2") ∈ cfg_edges (build_listM sample_program)
  /\ ("elifexp2", "end") ∈ cfg_edges (build_listM sample_program).
Proof.
  destruct (branch_header_edges (build_listM sample_program) 3
              "elif2" "elifexp2") as (H1 & H2 & _);
    [lia | reflexivity | reflexivity | reflexivity | reflexivity |].
  split; [exact H1|exact H2].
Defined.

Lemma cfg_fold_invariant listM (P : list (string * string) -> Prop) idx :
  (forall s i, P (edges s) -> P (edges (cfg_step listM s i))) ->
  forall s, P (edges s) -> P (edges (foldl (cfg_step listM) s idx)).
Proof.
  intros Hstep. induction idx as [|i idx IH]; intros s Hs; [done|].
  simpl. apply IH. by apply Hstep.
Qed.

(** Plain expression labels and plain [else] labels lead to ["end"] only
    (unless the label is also the first of the sequence, which gets the
    start edge). *)
Theorem exp_and_else_lead_to_end (listM : list string) (x b : string) :
  head listM <> Some x ->
  _is_plain_exp x || _is_plain_else x = true ->
  (x, b) ∈ cfg_edges listM -> b = "end".
Proof.
  intros Hhead Hx.
  change (cfg_edges listM) with (dedup_edges (edges (cfg_loop listM))).
  rewrite dedup_edges_elem. revert b.
  unfold cfg_loop.
  apply (cfg_fold_invariant listM (fun es => forall b, (x, b) ∈ es -> b = "end")).
  - intros s i Hs b.
    destruct (listM !! (i + 1)) as [nxt|] eqn:Hn;
      [|by rewrite cfg_step_out_of_range; auto].
    destruct (listM !! i) as [cur|] eqn:Hc;
      [|apply lookup_lt_Some in Hn; apply lookup_ge_None in Hc; lia].
    destruct (decide (cur = x)) as [->|Hne].
    + apply orb_prop in Hx as [Hx|Hx].
      * unfold cfg_step. rewrite Hc, Hn, Hx. auto.
      * destruct (plain_else_only _ Hx) as [H1 H2].
        unfold cfg_step. rewrite Hc, Hn, H1, H2, Hx. simpl.
        rewrite elem_of_app, list_elem_of_singleton.
        intros [?|[= ->]]; auto.
    + destruct (cfg_step_edges listM s i cur nxt Hc Hn) as (new & -> & Hnew).
      rewrite elem_of_app. intros [?|Hin]; [auto|].
      rewrite Forall_forall in Hnew. specialize (Hnew _ Hin).
      inversion Hnew; subst; congruence.
  - intros b. unfold cfg_init. simpl.
    destruct listM as [|a0 [|b0 rest]]; simpl;
      try (by intros ?%elem_of_nil).
    intros [= -> ->]%list_elem_of_singleton. by destruct Hhead.
Qed.

Lemma exp_and_else_lead_to_end_witness : "end" = "end".
Proof.
  apply (exp_and_else_lead_to_end (build_listM sample_program) "else4" "end");
    [ discriminate | reflexivity
    | apply (bool_decide_unpack _); vm_compute; exact I ].
Defined.

End EdgeMore.

Section LoopRule.

Lemma contains_suffix sub p r :
  contains sub (p +:+ r) = false -> contains sub r = false.
Proof.
  induction p as [|c p IH]; [done|].
  rewrite append_cons_l. cbn [contains].
  intros [_ H]%orb_false_elim. auto.
Qed.

Lemma contains_prefix_false sub r :
  contains sub r = false -> String.prefix sub r = false.
Proof. destruct r; cbn [contains]; by intros [? _]%orb_false_elim. Qed.

Lemma find_from_first (P : string -> bool) (l : list string) n :
  forall k j x,
    j = k + n -> l !! j = Some x -> P x = true ->
    (forall m y, k <= m < j -> l !! m = Some y -> P y = false) ->
    find_from P (drop k l) k = Some (j, x).
Proof.
  induction n as [|n IH]; intros k j x Hj Hl HP Hbefore.
  - replace j with k in * by lia.
    rewrite (drop_S _ _ _ Hl). simpl. by rewrite HP.
  - destruct (lookup_lt_is_Some_2 l k) as [y Hy].
    { apply lookup_lt_Some in Hl. lia. }
    rewrite (drop_S _ _ _ Hy). simpl.
    rewrite (Hbefore k y) by (done || lia).
    apply IH; try done; [lia|].
    intros m z Hm. apply Hbefore. lia.
Qed.

(** What the iteration at a plain loop header appends. *)
Lemma loop_header_step listM s i cur nxt :
  listM !! i = Some cur -> listM !! (i + 1) = Some nxt ->
  startswith cur "for" || startswith cur "while" = true ->
  no_sp cur = true ->
  edges (cfg_step listM s i)
  = edges s
    ++ (if truthy nxt && no_sp nxt then [(cur, cur)] else [])
    ++ match find_from no_sp (drop (i + 1) listM) (i + 1) with
       | Some (j, lj) =>
           (cur, lj) :: (if truthy nxt && negb (String.eqb nxt lj)
                         then [(cur, nxt)] else [])
       | None => []
       end.
Proof.
  intros Hc Hn Hk Hsp. unfold cfg_step. rewrite Hc, Hn.
  apply orb_prop in Hk as [Hk|Hk]; pose proof Hk as Hk';
    apply startswith_app in Hk' as [r ->].
  - assert (Hforsp : startswith ("for" +:+ r) "forsp" = false).
    { unfold no_sp in Hsp. apply negb_true_iff in Hsp.
      apply contains_suffix, contains_prefix_false in Hsp.
      unfold startswith. exact Hsp. }
    assert (_is_plain_exp ("for" +:+ r) = false) as -> by (by vm_compute).
    assert (_is_plain_if ("for" +:+ r) = false) as -> by (by vm_compute).
    assert (_is_plain_elif ("for" +:+ r) = false) as -> by (by vm_compute).
    assert (_is_plain_else ("for" +:+ r) = false) as -> by (by vm_compute).
    rewrite Hforsp, Hk, Hsp. simpl.
    destruct (find_from _ _ _) as [[j lj]|];
      destruct (truthy nxt && no_sp nxt);
      try destruct (truthy nxt && negb (String.eqb nxt lj));
      simpl; rewrite <- ?app_assoc; try done; by rewrite app_nil_r.
  - assert (_is_plain_exp ("while" +:+ r) = false) as -> by (by vm_compute).
    assert (_is_plain_if ("while" +:+ r) = false) as -> by (by vm_compute).
    assert (_is_plain_elif ("while" +:+ r) = false) as -> by (by vm_compute).
    assert (_is_plain_else ("while" +:+ r) = false) as -> by (by vm_compute).
    assert (startswith ("while" +:+ r) "forsp" = false) as -> by (by vm_compute).
    assert (startswith ("while" +:+ r) "for" = false) as -> by (by vm_compute).
    rewrite Hk, Hsp. simpl.
    destruct (find_from _ _ _) as [[j lj]|];
      destruct (truthy nxt && no_sp nxt);
      try destruct (truthy nxt && negb (String.eqb nxt lj));
      simpl; rewrite <- ?app_assoc; try done; by rewrite app_nil_r.
Qed.

(** Rule for a plain [for] or [while] header: an exit edge to the first
    later label without [sp], an entry edge to the next label, and a
    self-loop when the next label is itself without [sp]. *)
Theorem loop_header_edges (listM : list string) (i j : nat)
    (cur nxt lj : string) :
  1 <= i -> listM !! i = Some cur -> listM !! (i + 1) = Some nxt ->
  startswith cur "for" || startswith cur "while" = true ->
  no_sp cur = true -> truthy nxt = true ->
  i < j -> listM !! j = Some lj -> no_sp lj = true ->
  (forall m y, i < m < j -> listM !! m = Some y -> no_sp y = false) ->
  (cur, lj) ∈ cfg_edges listM
  /\ (cur, nxt) ∈ cfg_edges listM
  /\ (no_sp nxt = true -> (cur, cur) ∈ cfg_edges listM).
Proof.
  intros Hi Hc Hn Hk Hsp Ht Hij Hlj Hspj Hbefore.
  pose proof (lookup_lt_Some _ _ _ Hn) as Hlen.
  assert (Hf : find_from no_sp (drop (i + 1) listM) (i + 1) = Some (j, lj)).
  { apply (find_from_first no_sp listM (j - (i + 1))); try done; [lia|].
    intros m y Hm. apply Hbefore. lia. }
  assert (Hstep := fun s => loop_header_step listM s i cur nxt Hc Hn Hk Hsp).
  split; [|split].
  - apply (step_edge_kept listM i); [done..|]. intros s.
    rewrite Hstep, Hf, !elem_of_app. right. right. by left.
  - apply (step_edge_kept listM i); [done..|]. intros s.
    rewrite Hstep, Hf, Ht, !elem_of_app. right. right. simpl.
    destruct (String.eqb_spec nxt lj) as [->|]; simpl.
    + by left.
    + right. by left.
  - intros Hspn. apply (step_edge_kept listM i); [done..|]. intros s.
    rewrite Hstep, Ht, Hspn, !elem_of_app. right. left. by left.
Qed.

Lemma loop_header_edges_witness :
  ("while1", "end") ∈ cfg_edges ["start"; "while1"; "whilesp2"; "end"]
  /\ ("while1", "whilesp2") ∈ cfg_edges ["start"; "while1"; "whilesp2"; "end"].
Proof.
  destruct (loop_header_edges ["start"; "while1"; "whilesp2"; "end"] 1 3
              "while1" "whilesp2" "end") as (H1 & H2 & _);
    [ lia | reflexivity | reflexivity | reflexivity | reflexivity
    | reflexivity | lia | reflexivity | reflexivity | |].
  - intros m y Hm Hy. assert (m = 2) as -> by lia.
    injection Hy as <-. reflexivity.
  - split; [exact H1|exact H2].
Defined.

End LoopRule.

(** * Nodes, counts, adjacency *)

Section Containers.

Lemma create_nodes_fold_NoDup (l : list string) : forall acc,
  NoDup acc ->
  NoDup (foldl (fun keys x => if bool_decide (x ∈ keys) then keys else keys ++ [x])
               acc l).
Proof.
  induction l as [|x l IH]; intros acc Hnd; [done|].
  simpl. apply IH. case_bool_decide; [done|].
  apply NoDup_app. split; [done|]. split; [|apply NoDup_singleton].
  by intros y Hy ->%list_elem_of_singleton.
Qed.

(** [create_nodes] keeps exactly the labels of its input, each once, in
    the order of first occurrence; on a duplicate-free list it changes
    nothing, and applying it twice is the same as once. *)
Theorem create_nodes_spec (l : list string) :
  NoDup (create_nodes l)
  /\ (forall x, x ∈ create_nodes l <-> x ∈ l)
  /\ (forall x, create_nodes (l ++ [x])
                = if bool_decide (x ∈ l) then create_nodes l
                  else create_nodes l ++ [x])
  /\ create_nodes (create_nodes l) = create_nodes l.
Proof.
  assert (Hnd : NoDup (create_nodes l)).
  { apply create_nodes_fold_NoDup. constructor. }
  split; [done|]. split; [apply create_nodes_elem|]. split.
  - intros x. unfold create_nodes. rewrite foldl_app. simpl.
    fold (create_nodes l).
    repeat case_bool_decide; try done;
      rewrite create_nodes_elem in *; done.
  - by apply create_nodes_NoDup.
Qed.

Lemma freq_fold (l3 : list string) : forall (m : gmap string nat) x,
  default 0 (foldl (fun m n => <[ n := S (default 0 (m !! n)) ]> m) m l3 !! x)
  = default 0 (m !! x) + length (List.filter (String.eqb x) l3).
Proof.
  induction l3 as [|n l3 IH]; intros m x; simpl; [lia|].
  rewrite IH. destruct (String.eqb_spec x n) as [->|Hne].
  - rewrite lookup_insert_eq. simpl. lia.
  - rewrite lookup_insert_ne by done. lia.
Qed.

Lemma freq_fold_None (l3 : list string) : forall (m : gmap string nat) x,
  foldl (fun m n => <[ n := S (default 0 (m !! n)) ]> m) m l3 !! x = None
  <-> m !! x = None /\ x ∉ l3.
Proof.
  induction l3 as [|n l3 IH]; intros m x; simpl.
  - split; [intros ?; split; [done|apply not_elem_of_nil]|by intros [? _]].
  - rewrite IH, not_elem_of_cons. destruct (decide (n = x)) as [->|Hne].
    + rewrite lookup_insert_eq. split; [by intros [? _]|by intros [_ [? _]]].
    + rewrite lookup_insert_ne by done. intuition congruence.
Qed.

(** The frequency dictionary maps every label of [list3] to its number of
    occurrences and has no entry for any other label. *)
Theorem freq_of_counts (l3 : list string) (x : string) :
  default 0 (freq_of l3 !! x) = length (List.filter (String.eqb x) l3)
  /\ (freq_of l3 !! x = None <-> x ∉ l3)
  /\ (x ∈ l3 -> exists c, freq_of l3 !! x = Some c /\ 1 <= c).
Proof.
  unfold freq_of. split; [|split].
  - rewrite freq_fold. by rewrite lookup_empty.
  - rewrite freq_fold_None, lookup_empty. intuition.
  - intros Hin.
    destruct (foldl _ ∅ l3 !! x) as [c|] eqn:E.
    + exists c. split; [done|].
      pose proof (freq_fold l3 ∅ x) as H. rewrite E, lookup_empty in H.
      simpl in H. rewrite H. clear -Hin.
      induction l3 as [|n l3 IH]; [by apply elem_of_nil in Hin|].
      simpl. destruct (String.eqb_spec x n); simpl; [lia|].
      apply IH. by apply elem_of_cons in Hin as [?|?].
    + apply freq_fold_None in E as [_ ?]. done.
Qed.

Lemma adj_fold (es : list (string * string)) :
  forall (d : gmap string (list string)) a,
  successors (foldl (fun d e => <[ e.1 := default [] (d !! e.1) ++ [e.2] ]> d)
                    d es) a
  = successors d a ++ map snd (List.filter (fun e => String.eqb e.1 a) es).
Proof.
  induction es as [|[x y] es IH]; intros d a; simpl.
  - by rewrite app_nil_r.
  - rewrite IH. unfold successors at 1. simpl.
    destruct (String.eqb_spec x a) as [->|Hne].
    + rewrite lookup_insert_eq. simpl. by rewrite <- app_assoc.
    + by rewrite lookup_insert_ne.
Qed.

Lemma adj_fold_None (es : list (string * string)) :
  forall (d : gmap string (list string)) a,
  foldl (fun d e => <[ e.1 := default [] (d !! e.1) ++ [e.2] ]> d) d es !! a
  = None <-> d !! a = None /\ forall b, (a, b) ∉ es.
Proof.
  induction es as [|[x y] es IH]; intros d a; simpl.
  - split; [|by intros [? _]]. intros ?. split; [done|].
    intros b. apply not_elem_of_nil.
  - rewrite IH. destruct (decide (x = a)) as [->|Hne].
    + rewrite lookup_insert_eq. split; [by intros [? _]|].
      intros [_ H]. destruct (H y). by left.
    + rewrite lookup_insert_ne by done. split.
      * intros [? H]. split; [done|]. intros b [[= ? ?]|?]%elem_of_cons;
          [done|]. by apply (H b).
      * intros [? H]. split; [done|]. intros b ?. apply (H b). by right.
Qed.

(** The adjacency of a label lists the destinations of its edges in the
    order of the edge list; a label without outgoing edge has no
    successors. *)
Theorem build_adj_successors (es : list (string * string)) (a : string) :
  successors (build_adj_from_edges es) a
  = map snd (List.filter (fun e => String.eqb e.1 a) es)
  /\ (forall b, b ∈ successors (build_adj_from_edges es) a <-> (a, b) ∈ es)
  /\ (build_adj_from_edges es !! a = None <-> forall b, (a, b) ∉ es).
Proof.
  assert (H1 : successors (build_adj_from_edges es) a
               = map snd (List.filter (fun e => String.eqb e.1 a) es)).
  { unfold build_adj_from_edges. rewrite adj_fold. unfold successors.
    by rewrite lookup_empty. }
  assert (H2 : forall b, b ∈ map snd (List.filter (fun e => String.eqb e.1 a) es)
                         <-> (a, b) ∈ es).
  { intros b. rewrite list_elem_of_In, in_map_iff. split.
    - intros ([x y] & <- & [Hin Hx]%filter_In). simpl in *.
      apply String.eqb_eq in Hx as ->. by apply list_elem_of_In.
    - intros Hin. exists (a, b). split; [done|]. apply filter_In.
      split; [by apply list_elem_of_In|]. apply String.eqb_refl. }
  split; [done|]. split; [intros b; by rewrite H1|].
  unfold build_adj_from_edges. rewrite adj_fold_None, lookup_empty.
  intuition.
Qed.

End Containers.

(** * More about the path enumerator *)

Section PathMore.

Context (d : gmap string (list string)).

(** The enumerator returns on every adjacency mapping, cyclic or not: any
    recursion bound above the number of successor labels that are not yet
    on the path gives the same result. *)
Theorem find_all_paths_terminates (source dest : string)
    (path0 : list string) (fuel : nat) :
  unvisited (all_successors d) (path0 ++ [source]) < fuel ->
  find_all_paths_fuel fuel d source dest path0
  = Some (find_all_paths d source dest path0).
Proof.
  intros Hlt.
  destruct (find_all_paths_fuel_enough d fuel source dest path0 Hlt) as [r Hr].
  pose proof (find_all_paths_total d source dest path0) as Ht.
  rewrite Hr. f_equal.
  destruct (Nat.le_gt_cases fuel (S (length (all_successors d)))) as [Hle|Hgt].
  - rewrite (find_all_paths_fuel_mono d _ _ _ _ _ _ Hle Hr) in Ht.
    by injection Ht.
  - assert (Hle : S (length (all_successors d)) <= fuel) by lia.
    rewrite (find_all_paths_fuel_mono d _ _ _ _ _ _ Hle Ht) in Hr.
    by injection Hr.
Qed.

Lemma is_walk_snoc (l : list string) (x y : string) :
  is_walk d (l ++ [x]) -> y ∈ successors d x -> is_walk d (l ++ [x; y]).
Proof.
  induction l as [|a l IH]; intros Hw Hy; [done|].
  destruct l as [|b l]; simpl in *.
  - destruct Hw as [? _]. done.
  - destruct Hw as [? Hw]. split; [done|]. by apply IH.
Qed.

Lemma back_edge_scan_end node path succs p :
  p ∈ back_edge_scan node path succs -> "end" ∈ succs.
Proof.
  induction succs as [|i succs IH]; simpl; [by intros ?%elem_of_nil|].
  destruct (String.eqb i node); [by intros ?%elem_of_nil|].
  destruct (String.eqb_spec i "end") as [->|]; [by left|].
  intros ?. right. auto.
Qed.

Lemma visit_successors_elem_walk rec path nodes r p :
  visit_successors d rec path nodes = Some r -> p ∈ r ->
  (exists node, node ∈ nodes /\ node ∈ path /\ p = path ++ [node; "end"]
                /\ "end" ∈ successors d node)
  \/ (exists node r', node ∈ nodes /\ (node ∉ path)
                      /\ rec node = Some r' /\ p ∈ r').
Proof.
  revert r. induction nodes as [|node nodes IH]; intros r; simpl.
  - intros [= <-]. by intros ?%elem_of_nil.
  - assert (Hrest : forall r0, visit_successors d rec path nodes = Some r0 ->
                               p ∈ r0 -> _) by (intros r0; apply IH).
    case_bool_decide.
    + destruct (visit_successors d rec path nodes) as [r0|]; [|done].
      simpl. intros [= <-]. rewrite elem_of_app. intros [Hp|Hp].
      * left. exists node. split; [by left|]. split; [done|].
        split; [by eapply back_edge_scan_elem|by eapply back_edge_scan_end].
      * destruct (Hrest r0 eq_refl Hp) as [(n & ? & ?)|(n & r' & ? & ?)].
        -- left. exists n. split; [by right|done].
        -- right. exists n, r'. split; [by right|done].
    + destruct (rec node) as [r1|] eqn:E; [|done].
      destruct (visit_successors d rec path nodes) as [r0|]; [|done].
      simpl. intros [= <-]. rewrite elem_of_app. intros [Hp|Hp].
      * right. exists node, r1. split; [by left|done].
      * destruct (Hrest r0 eq_refl Hp) as [(n & ? & ?)|(n & r' & ? & ?)].
        -- left. exists n. split; [by right|done].
        -- right. exists n, r'. split; [by right|done].
Qed.

Lemma find_all_paths_fuel_walk (dest : string) fuel : forall source path0 r p,
  NoDup (path0 ++ [source]) -> is_walk d (path0 ++ [source]) ->
  find_all_paths_fuel fuel d source dest path0 = Some r -> p ∈ r ->
  (path0 ++ [source]) `prefix_of` p
  /\ is_walk d p
  /\ ((NoDup p /\ last p = Some dest)
      \/ exists q node, p = q ++ [node; "end"] /\ NoDup q /\ node ∈ q).
Proof.
  induction fuel as [|fuel IH]; intros source path0 r p Hnd Hw; [done|].
  simpl. destruct (String.eqb_spec source dest) as [->|Hne].
  - intros [= <-] ->%list_elem_of_singleton.
    split; [done|]. split; [done|]. left. split; [done|apply last_snoc].
  - intros Hv Hp.
    destruct (visit_successors_elem_walk _ _ _ _ _ Hv Hp)
      as [(node & Hsucc & Hin & -> & Hend)
         |(node & r' & Hsucc & Hnin & Hrec & Hp')].
    + split; [by apply prefix_app_r|]. split.
      * apply (is_walk_snoc (path0 ++ [source]) node "end"); [|done].
        rewrite <- (assoc_L (++)).
        by apply (is_walk_snoc path0 source node).
      * right. by exists (path0 ++ [source]), node.
    + destruct (IH node (path0 ++ [source]) r' p) as (Hpre & Hwalk & Hshape);
        try done.
      { apply NoDup_app. split; [done|]. split; [|apply NoDup_singleton].
        intros x Hx ->%list_elem_of_singleton. done. }
      { rewrite <- (assoc_L (++)).
        by apply (is_walk_snoc path0 source node). }
      split; [|done]. etrans; [|exact Hpre]. by apply prefix_app_r.
Qed.

(** Every returned path starts at the source and follows edges of the
    adjacency mapping; it is either a duplicate-free path that ends at the
    destination, or a synthetic path that revisits one label and ends at
    the literal ["end"]. *)
Theorem paths_are_walks (source dest : string) (p : list string) :
  p ∈ find_all_paths d source dest [] ->
  head p = Some source
  /\ is_walk d p
  /\ ((NoDup p /\ last p = Some dest)
      \/ exists q node, p = q ++ [node; "end"] /\ NoDup q /\ node ∈ q).
Proof.
  intros Hp.
  destruct (find_all_paths_fuel_walk dest _ source [] _ p
              (NoDup_singleton _) I (find_all_paths_total d source dest []) Hp)
    as (Hpre & Hw & Hshape).
  split; [by destruct Hpre as [k ->]|done].
Qed.

Lemma simple_paths_found_aux (dest : string) (rest : list string) :
  forall path0 source,
    NoDup (path0 ++ source :: rest) -> is_walk d (source :: rest) ->
    last (source :: rest) = Some dest ->
    (path0 ++ source :: rest) ∈ find_all_paths d source dest path0.
Proof.
  induction rest as [|node rest IH]; intros path0 source Hnd Hw Hlast.
  - simpl in Hlast. injection Hlast as ->.
    rewrite find_all_paths_unfold. simpl. rewrite String.eqb_refl. by left.
  - rewrite find_all_paths_unfold. simpl.
    destruct (String.eqb_spec source dest) as [->|Hne].
    + exfalso. rewrite last_cons_cons in Hlast.
      apply last_Some_elem_of in Hlast.
      apply NoDup_app in Hnd as (_ & _ & Hnd).
      apply NoDup_cons in Hnd as [Hnot _]. done.
    + destruct Hw as [Hsucc Hw].
      apply list_elem_of_In, in_concat.
      eexists. split.
      * apply in_map_iff. exists node. split; [reflexivity|].
        by apply list_elem_of_In.
      * rewrite bool_decide_eq_false_2.
        -- apply list_elem_of_In.
           rewrite (cons_middle source), (assoc_L (++)).
           apply IH; [by rewrite <- (assoc_L (++)) | done |].
           by rewrite last_cons_cons in Hlast.
        -- rewrite (cons_middle source), (assoc_L (++)) in Hnd.
           apply NoDup_app in Hnd as (_ & Hd & _).
           intros Hin. apply (Hd _ Hin). by left.
Qed.

(** Completeness: every duplicate-free walk of the adjacency mapping from
    the source to the destination is among the returned paths. *)
Theorem simple_paths_found (source dest : string) (p : list string) :
  head p = Some source -> last p = Some dest -> NoDup p -> is_walk d p ->
  p ∈ find_all_paths d source dest [].
Proof.
  intros Hh Hl Hnd Hw. destruct p as [|x rest]; [done|].
  injection Hh as ->.
  by apply (simple_paths_found_aux dest rest [] source).
Qed.

End PathMore.

Lemma find_all_paths_terminates_witness :
  find_all_paths_fuel 5 adj_loop_end "start" "end" []
  = Some (find_all_paths adj_loop_end "start" "end" []).
Proof.
  apply (find_all_paths_terminates adj_loop_end "start" "end" [] 5).
  apply Nat.ltb_lt. vm_compute. reflexivity.
Defined.

Lemma paths_are_walks_witness :
  head ["start"; "a"; "b"; "a"; "end"] = Some "start"
  /\ is_walk adj_loop_end ["start"; "a"; "b"; "a"; "end"].
Proof.
  destruct (paths_are_walks adj_loop_end "start" "end"
              ["start"; "a"; "b"; "a"; "end"]) as (H1 & H2 & _).
  - apply (bool_decide_unpack _). vm_compute. exact I.
  - split; [exact H1|exact H2].
Defined.

Lemma simple_paths_found_witness :
  ["start"; "a"; "end"] ∈ find_all_paths adj_loop_end "start" "end" [].
Proof.
  apply (simple_paths_found adj_loop_end "start" "end" ["start"; "a"; "end"]);
    [ reflexivity | reflexivity
    | apply (bool_decide_unpack _); vm_compute; exact I
    | repeat split; apply (bool_decide_unpack _); vm_compute; exact I ].
Defined.

(** * Size and ends of the generated graph *)

Section GraphShape.

Lemma dedup_fold_prefix (es : list (string * string)) : forall acc,
  exists more,
    (foldl dedup_step acc es).2 = acc.2 ++ more
    /\ length more <= length es.
Proof.
  induction es as [|e es IH]; intros acc; simpl.
  - exists []. by rewrite app_nil_r.
  - destruct (IH (dedup_step acc e)) as (more & -> & Hlen).
    unfold dedup_step. case_bool_decide; simpl.
    + exists (e :: more). rewrite <- app_assoc. split; [done|simpl; lia].
    + exists more. split; [done|lia].
Qed.

Lemma cfg_step_length listM s i :
  length (edges (cfg_step listM s i)) <= length (edges s) + 3.
Proof.
  unfold cfg_step.
  destruct (listM !! i) as [cur|]; [|lia].
  destruct (listM !! (i + 1)) as [nxt|]; [|lia].
  cbv zeta.
  repeat case_match; unfold set_edges; cbn [edges];
    rewrite ?length_app; simpl; lia.
Qed.

Lemma cfg_fold_length listM idx : forall s,
  length (edges (foldl (cfg_step listM) s idx))
  <= length (edges s) + 3 * length idx.
Proof.
  induction idx as [|i idx IH]; intros s; simpl; [lia|].
  pose proof (IH (cfg_step listM s i)).
  pose proof (cfg_step_length listM s i). lia.
Qed.

Lemma create_nodes_fold_length (l : list string) : forall acc,
  length (foldl (fun keys x => if bool_decide (x ∈ keys) then keys else keys ++ [x])
                acc l) <= length acc + length l.
Proof.
  induction l as [|x l IH]; intros acc; simpl; [lia|].
  etrans; [apply IH|]. case_bool_decide; rewrite ?length_app; simpl; lia.
Qed.

(** The graph is linear in the number of labels: at most one node per
    label, and at most one start edge plus three edges per inner label. *)
Theorem graph_size_bound (listM : list string) :
  length (cfg_nodes listM) <= length listM
  /\ length (cfg_edges listM) <= 1 + 3 * (length listM - 2).
Proof.
  split.
  - change (cfg_nodes listM) with (create_nodes listM).
    pose proof (create_nodes_fold_length listM []). simpl in *. done.
  - change (cfg_edges listM) with (dedup_edges (edges (cfg_loop listM))).
    unfold dedup_edges.
    destruct (dedup_fold_prefix (edges (cfg_loop listM)) (∅, []))
      as (more & -> & Hlen). simpl.
    etrans; [exact Hlen|]. unfold cfg_loop.
    etrans; [apply cfg_fold_length|]. rewrite length_seq.
    unfold cfg_init. simpl. destruct listM as [|a [|b rest]]; simpl; lia.
Qed.

(** Short label sequences give no edge; from two labels on, the first
    edge of the list joins the first two labels. *)
Theorem start_edge_first (a b : string) (rest : list string) :
  cfg_edges [] = []
  /\ cfg_edges [a] = []
  /\ cfg_edges [a; b] = [(a, b)]
  /\ head (cfg_edges (a :: b :: rest)) = Some (a, b).
Proof.
  assert (Hd : forall e es, exists more, dedup_edges (e :: es) = e :: more).
  { intros e es. unfold dedup_edges. simpl.
    assert (dedup_step (∅, []) e = ({[e]} ∪ ∅, [e])) as ->.
    { unfold dedup_step. simpl. rewrite bool_decide_eq_true_2; [done|].
      apply not_elem_of_empty. }
    destruct (dedup_fold_prefix es ({[e]} ∪ ∅, [e])) as (more & -> & _).
    by exists more. }
  split; [done|]. split; [done|]. split.
  - change (cfg_edges [a; b]) with (dedup_edges [(a, b)]).
    exact (dedup_edges_snoc [] (a, b)).
  - change (cfg_edges (a :: b :: rest))
      with (dedup_edges (edges (cfg_loop (a :: b :: rest)))).
    unfold cfg_loop.
    destruct (cfg_fold_appends (a :: b :: rest)
                (seq 1 (length (a :: b :: rest) - 2))
                (cfg_init (a :: b :: rest))) as [new ->].
    simpl. destruct (Hd (a, b) new) as [more ->]. done.
Qed.

(** In the graph of any source text, every edge leaves a label of the
    sequence other than ["end"], and leads to a label of the sequence
    other than ["start"] or to the marker ["f"]. *)
Theorem pipeline_graph_ends (source : string) (a b : string) :
  (a, b) ∈ cfg_edges (build_listM source) ->
  a ∈ build_listM source /\ a <> "end"
  /\ b <> "start" /\ (b ∈ build_listM source \/ b = "f").
Proof.
  unfold build_listM. set (lines := splitlines source).
  pose proof (build_listM_lines_NoDup lines) as Hnd.
  assert (Hlast : build_listM_lines lines
                    !! (length (build_listM_lines lines) - 1) = Some "end").
  { rewrite Nat.sub_1_r, <- last_lookup. unfold build_listM_lines.
    by rewrite app_comm_cons, last_snoc. }
  assert (Hfirst : build_listM_lines lines !! 0 = Some "start") by done.
  set (L := build_listM_lines lines) in *.
  assert (Hstart : forall j, 1 <= j -> L !! j <> Some "start").
  { intros j Hj Hl. pose proof (NoDup_lookup _ _ _ _ Hnd Hl Hfirst). lia. }
  assert (Hend : forall j, j + 1 < length L -> L !! j <> Some "end").
  { intros j Hj Hl. pose proof (NoDup_lookup _ _ _ _ Hnd Hl Hlast). lia. }
  assert (HendL : "end" ∈ L) by (by eapply list_elem_of_lookup_2).
  intros Hab.
  destruct (cfg_edges_elem _ _ Hab)
    as [(a' & b' & rest & HL & [= -> ->])
       |(i & cur & nxt & Hi & Hc & Hn & Hstep)].
  - assert (H0 : L !! 0 = Some a') by (by rewrite HL).
    assert (H1 : L !! 1 = Some b') by (by rewrite HL).
    split; [by eapply list_elem_of_lookup_2|]. split.
    + intros ->. apply (Hend 0); [rewrite HL; simpl; lia|done].
    + split; [intros ->; by apply (Hstart 1)|].
      left. by eapply list_elem_of_lookup_2.
  - pose proof (lookup_lt_Some _ _ _ Hn) as Hlen.
    apply list_elem_of_lookup_2 in Hc as Hcur.
    apply list_elem_of_lookup_2 in Hn as Hnxt.
    assert (Hcs : cur <> "start") by (intros ->; by apply (Hstart i)).
    assert (Hce : cur <> "end") by (intros ->; by apply (Hend i)).
    assert (Hns : nxt <> "start")
      by (intros ->; apply (Hstart (i + 1)); [lia|done]).
    inversion Hstep; subst.
    + by repeat split; try left.
    + by repeat split; try left.
    + by repeat split; try left.
    + split; [done|]. split; [done|]. split.
      * intros ->. apply (Hstart j); [lia|done].
      * left. by eapply list_elem_of_lookup_2.
    + split; [done|]. split; [done|]. split.
      * intros ->.
        match goal with H : contains _ _ = true |- _ => vm_compute in H end.
        discriminate.
      * left. by eapply list_elem_of_lookup_2.
    + split; [done|]. split; [done|]. split; [done|by right].
    + split; [done|]. split.
      * intros ->.
        match goal with H : _is_plain_exp _ = true |- _ => vm_compute in H end.
        discriminate.
      * split; [done|by left].
Qed.

Lemma pipeline_graph_ends_witness :
  "whilesp2" ∈ build_listM nested_while_program /\ "whilesp2" <> "end"
  /\ "f" <> "start" /\ ("f" ∈ build_listM nested_while_program \/ "f" = "f").
Proof.
  apply (pipeline_graph_ends nested_while_program "whilesp2" "f").
  apply (bool_decide_unpack _). vm_compute. exact I.
Defined.

End GraphShape.

(** * Rules for nested tokens *)

Section NestedRules.

Lemma contains_mid sub p r : contains sub (p +:+ sub +:+ r) = true.
Proof.
  induction p as [|c p IH].
  - rewrite append_nil_l.
    assert (H : String.prefix sub (sub +:+ r) = true)
      by apply (startswith_app_true sub r).
    destruct (sub +:+ r); cbn [contains]; by rewrite H.
  - rewrite append_cons_l. cbn [contains]. rewrite IH. apply orb_true_r.
Qed.

(** What the iteration at a nested loop token appends first or last: its
    self-loop; a [forsp] token right after a label that contains [for]
    also gets the edge back to that label. *)
Theorem nested_loop_edges (listM : list string) (i : nat) (cur nxt : string) :
  1 <= i -> listM !! i = Some cur -> listM !! (i + 1) = Some nxt ->
  nested_loop cur = true ->
  (cur, cur) ∈ cfg_edges listM
  /\ (forall prev, startswith cur "forsp" = true ->
        listM !! (i - 1) = Some prev -> contains "for" prev = true ->
        (cur, prev) ∈ cfg_edges listM).
Proof.
  intros Hi Hc Hn Hk.
  pose proof (lookup_lt_Some _ _ _ Hn) as Hlen.
  unfold nested_loop in Hk. split.
  - apply (step_edge_kept listM i); [done..|]. intros s.
    unfold cfg_step. rewrite Hc, Hn. cbv zeta.
    apply orb_prop in Hk as [Hk|Hk]; pose proof Hk as Hk';
      apply startswith_app in Hk' as [r ->].
    + assert (_is_plain_exp ("forsp" +:+ r) = false) as -> by (by vm_compute).
      assert (_is_plain_if ("forsp" +:+ r) = false) as -> by (by vm_compute).
      assert (_is_plain_elif ("forsp" +:+ r) = false) as -> by (by vm_compute).
      assert (_is_plain_else ("forsp" +:+ r) = false) as -> by (by vm_compute).
      rewrite Hk. simpl.
      repeat case_match; unfold set_edges; cbn [edges];
        rewrite !elem_of_app, !list_elem_of_singleton; tauto.
    + assert (_is_plain_exp ("whilesp" +:+ r) = false) as -> by (by vm_compute).
      assert (_is_plain_if ("whilesp" +:+ r) = false) as -> by (by vm_compute).
      assert (_is_plain_elif ("whilesp" +:+ r) = false) as -> by (by vm_compute).
      assert (_is_plain_else ("whilesp" +:+ r) = false) as -> by (by vm_compute).
      assert (startswith ("whilesp" +:+ r) "forsp" = false) as ->
        by (by vm_compute).
      assert (startswith ("whilesp" +:+ r) "for" = false) as ->
        by (by vm_compute).
      assert (no_sp ("whilesp" +:+ r) = false) as ->.
      { unfold no_sp.
        change ("whilesp" +:+ r) with ("while" +:+ "sp" +:+ r).
        by rewrite contains_mid. }
      rewrite Hk. simpl. rewrite ?andb_false_r.
      repeat case_match; unfold set_edges; cbn [edges];
        rewrite !elem_of_app, !list_elem_of_singleton; tauto.
  - intros prev Hfor Hp Hprev.
    apply (step_edge_kept listM i); [done..|]. intros s.
    unfold cfg_step. rewrite Hc, Hn. cbv zeta.
    pose proof Hfor as Hfor'. apply startswith_app in Hfor' as [r ->].
    assert (_is_plain_exp ("forsp" +:+ r) = false) as -> by (by vm_compute).
    assert (_is_plain_if ("forsp" +:+ r) = false) as -> by (by vm_compute).
    assert (_is_plain_elif ("forsp" +:+ r) = false) as -> by (by vm_compute).
    assert (_is_plain_else ("forsp" +:+ r) = false) as -> by (by vm_compute).
    rewrite Hfor, Hp, Hprev. simpl. unfold set_edges. cbn [edges].
    rewrite !elem_of_app, !list_elem_of_singleton. tauto.
Qed.

Lemma nested_loop_edges_witness :
  ("whilesp2", "whilesp2") ∈ cfg_edges ["start"; "while1"; "whilesp2"; "end"].
Proof.
  destruct (nested_loop_edges ["start"; "while1"; "whilesp2"; "end"] 2
              "whilesp2" "end") as [H _];
    [lia | reflexivity | reflexivity | reflexivity | exact H].
Defined.

(** Nested branch tokens, their expression labels included, fall through
    to the next label: [_is_plain_exp] does not recognise [ifspexp...], so
    a nested expression label is the source of an edge. *)
Theorem nested_branch_falls_through (listM : list string) (i : nat)
    (cur nxt : string) :
  1 <= i -> listM !! i = Some cur -> listM !! (i + 1) = Some nxt ->
  startswith cur "ifsp" || startswith cur "elifsp" || startswith cur "elsesp"
  = true ->
  truthy nxt = true ->
  (cur, nxt) ∈ cfg_edges listM.
Proof.
  intros Hi Hc Hn Hk Ht.
  pose proof (lookup_lt_Some _ _ _ Hn) as Hlen.
  apply (step_edge_kept listM i); [done..|]. intros s.
  unfold cfg_step. rewrite Hc, Hn, Ht. cbv zeta.
  apply orb_prop in Hk as [Hk|Hk]; [apply orb_prop in Hk as [Hk|Hk]|];
    apply startswith_app in Hk as [r ->];
    match goal with
    | |- context [_is_plain_exp (?p +:+ r)] =>
        assert (_is_plain_exp (p +:+ r) = false) as -> by (by vm_compute);
        assert (_is_plain_if (p +:+ r) = false) as -> by (by vm_compute);
        assert (_is_plain_elif (p +:+ r) = false) as -> by (by vm_compute);
        assert (_is_plain_else (p +:+ r) = false) as -> by (by vm_compute);
        assert (startswith (p +:+ r) "forsp" = false) as -> by (by vm_compute);
        assert (startswith (p +:+ r) "for" = false) as -> by (by vm_compute);
        assert (startswith (p +:+ r) "while" = false) as -> by (by vm_compute);
        assert (startswith (p +:+ r) "whilesp" = false) as -> by (by vm_compute)
    end;
    simpl; unfold set_edges; cbn [edges];
    rewrite elem_of_app, list_elem_of_singleton; tauto.
Qed.

Lemma nested_branch_falls_through_witness :
  ("ifspexp2", "end") ∈ cfg_edges ["start"; "while1"; "ifsp2"; "ifspexp2"; "end"].
Proof.
  apply (nested_branch_falls_through
           ["start"; "while1"; "ifsp2"; "ifspexp2"; "end"] 3 "ifspexp2" "end");
    [lia | reflexivity..].
Defined.

End NestedRules.

(** * Instances of the properties above *)

Lemma extract_keyword_iff_witness :
  exists rest, extract_keyword "    elif x:" = Some ("elif", rest).
Proof.
  apply (proj2 (extract_keyword_iff "    elif x:" "elif")).
  split; [right; left; reflexivity | reflexivity].
Defined.

Lemma stack_invariant_witness :
  (0, "if1").2 ∈ listM (labeler_run labeler_init dedent_pre).
Proof.
  apply (proj2 (stack_invariant dedent_pre) (0, "if1")).
  apply (bool_decide_unpack _). vm_compute. exact I.
Defined.

Lemma create_nodes_spec_witness : "b" ∈ create_nodes ["a"; "b"; "a"].
Proof.
  apply (proj2 (proj1 (proj2 (create_nodes_spec ["a"; "b"; "a"])) "b")).
  apply (bool_decide_unpack _). vm_compute. exact I.
Defined.

Lemma freq_of_counts_witness :
  exists c, freq_of ["a"; "b"; "a"] !! "a" = Some c /\ 1 <= c.
Proof.
  apply (proj2 (proj2 (freq_of_counts ["a"; "b"; "a"] "a"))).
  apply (bool_decide_unpack _). vm_compute. exact I.
Defined.

Lemma build_adj_successors_witness :
  "end" ∈ successors
           (build_adj_from_edges [("start", "while1"); ("while1", "end")])
           "while1".
Proof.
  apply (proj2 (proj1 (proj2 (build_adj_successors
           [("start", "while1"); ("while1", "end")] "while1")) "end")).
  apply (bool_decide_unpack _). vm_compute. exact I.
Defined.
